(** * Lead form endpoint (src/pages/api/lead.ts)

    A shallow embedding of the lead-submission handler: the in-memory rate
    limiter, the field validators, the sanitizer, the two message composers
    and the [POST] orchestration, followed by the properties of each.

    Conventions.
    - A JavaScript string is the list of its UTF-16 code units ([list N]);
      [js "..."] turns a literal of this file (UTF-8) into that form.
    - A JavaScript number is [NaN], an infinity, or the exact rational value
      of a finite double; [Double.of_decimal] rounds a decimal literal to the
      nearest double.
    - [Date.now()] is an integer number of milliseconds ([Z]).
    - An operation that can throw returns a [completion]. *)

From Stdlib Require Import QArith.
From stdpp Require Import gmap list fin_maps strings pretty.

#[local] Set Warnings "-register-all".

Local Open Scope Z_scope.

(** ** Strings as UTF-16 code units *)

Abbreviation char16 := N (only parsing).
Abbreviation jsstring := (list N) (only parsing).

Module Utf.

Definition byte_of_ascii (a : Ascii.ascii) : N := Ascii.N_of_ascii a.

Fixpoint bytes (s : string) : list N :=
  match s with
  | EmptyString => []
  | String a r => byte_of_ascii a :: bytes r
  end.

(** Payload of a UTF-8 continuation byte. *)
Definition cont (b : N) : N := N.land b 63.

(** Code points of a UTF-8 byte sequence (literals of this file are
    well-formed UTF-8; a truncated sequence is decoded from what is left). *)
Fixpoint codepoints (bs : list N) : list N :=
  match bs with
  | [] => []
  | b0 :: r0 =>
      if (b0 <? 128)%N then b0 :: codepoints r0
      else if (b0 <? 224)%N then
        match r0 with
        | b1 :: r1 => (N.land b0 31 * 64 + cont b1)%N :: codepoints r1
        | [] => [b0]
        end
      else if (b0 <? 240)%N then
        match r0 with
        | b1 :: b2 :: r2 =>
            (N.land b0 15 * 4096 + cont b1 * 64 + cont b2)%N :: codepoints r2
        | _ => [b0]
        end
      else
        match r0 with
        | b1 :: b2 :: b3 :: r3 =>
            (N.land b0 7 * 262144 + cont b1 * 4096 + cont b2 * 64 + cont b3)%N
              :: codepoints r3
        | _ => [b0]
        end
  end.

(** UTF-16 encoding of one code point. *)
Definition units (cp : N) : list N :=
  if (cp <? 65536)%N then [cp]
  else
    let v := (cp - 65536)%N in
    [(55296 + N.shiftr v 10)%N; (56320 + N.land v 1023)%N].

Definition utf16 (s : string) : list N :=
  concat (map units (codepoints (bytes s))).

End Utf.

(** A literal of the source, as a JavaScript string. *)
Definition js (s : string) : jsstring := Utf.utf16 s.

(** A literal in which the source's double quotes are written as backquotes
    (a backquote cannot occur inside the source's literals, which it
    delimits). *)
Definition tpl (s : string) : jsstring :=
  map (fun c => if (c =? 96)%N then 34%N else c) (js s).

Definition isDigit (c : char16) : bool := ((48 <=? c) && (c <=? 57))%N.

(** WhiteSpace and LineTerminator code units: what [\s] matches and what
    [String.prototype.trim] strips. *)
Definition isWhiteSpace (c : char16) : bool :=
  ((9 <=? c) && (c <=? 13)
   || (c =? 32) || (c =? 160) || (c =? 5760)
   || (8192 <=? c) && (c <=? 8202)
   || (c =? 8232) || (c =? 8233) || (c =? 8239) || (c =? 8287)
   || (c =? 12288) || (c =? 65279))%N.

Fixpoint dropWhile {A} (p : A -> bool) (l : list A) : list A :=
  match l with
  | x :: r => if p x then dropWhile p r else l
  | [] => []
  end.

Fixpoint takeWhile {A} (p : A -> bool) (l : list A) : list A :=
  match l with
  | x :: r => if p x then x :: takeWhile p r else []
  | [] => []
  end.

Definition trimStart (s : jsstring) : jsstring := dropWhile isWhiteSpace s.
Definition trimEnd (s : jsstring) : jsstring := reverse (dropWhile isWhiteSpace (reverse s)).

(** [String.prototype.trim] *)
Definition trim (s : jsstring) : jsstring := trimEnd (trimStart s).

(** [str.slice(0, n)] for a non-negative [n]. *)
Definition slice0 (n : nat) (s : jsstring) : jsstring := take n s.

(** [Array.prototype.join] on an array of strings. *)
Fixpoint join (sep : jsstring) (l : list jsstring) : jsstring :=
  match l with
  | [] => []
  | [x] => x
  | x :: r => x ++ sep ++ join sep r
  end.

Fixpoint isPrefix (p s : jsstring) : bool :=
  match p, s with
  | [], _ => true
  | a :: p', b :: s' => (a =? b)%N && isPrefix p' s'
  | _ :: _, [] => false
  end.

(** [s.includes(p)]: [p] occurs in [s]. *)
Fixpoint occurs (p s : jsstring) : bool :=
  isPrefix p s || match s with [] => false | _ :: r => occurs p r end.

(** [str.replace(/\n/g, '<br>')] and its like: every unit that satisfies [p]
    is replaced by [by_]. *)
Definition replaceAll (p : char16 -> bool) (by_ : jsstring) (s : jsstring) : jsstring :=
  concat (map (fun c => if p c then by_ else [c]) s).

(** ** Sanitizer *)

(** [sanitize(str)]: [str.trim().slice(0, 2000)] *)
Definition sanitize (str : jsstring) : jsstring := slice0 2000 (trim str).

(** ** Phone rule *)

(** [validatePhone(phone)]: [phone.replace(/\D/g, '')] keeps the digits. *)
Definition validatePhone (phone : jsstring) : bool :=
  let digits := replaceAll (fun c => negb (isDigit c)) [] phone in
  (9 <=? length digits)%nat.

(** ** Regular expressions

    The fragment of the pattern language the source uses: character classes,
    literal characters, concatenation and [+].  A pattern anchored with [^]
    and [$] (no flags) is tested against the whole string. *)

Module Regex.

Inductive re : Type :=
| Void
| Eps
| Class (p : char16 -> bool)
| Cat (r1 r2 : re)
| Alt (r1 r2 : re)
| Star (r : re).

(** [r+] *)
Definition Plus (r : re) : re := Cat r (Star r).
(** a literal character *)
Definition Chr (c : char16) : re := Class (fun x => (x =? c)%N).

Fixpoint nullable (r : re) : bool :=
  match r with
  | Void => false
  | Eps => true
  | Class _ => false
  | Cat r1 r2 => nullable r1 && nullable r2
  | Alt r1 r2 => nullable r1 || nullable r2
  | Star _ => true
  end.

Fixpoint der (c : char16) (r : re) : re :=
  match r with
  | Void => Void
  | Eps => Void
  | Class p => if p c then Eps else Void
  | Cat r1 r2 =>
      if nullable r1 then Alt (Cat (der c r1) r2) (der c r2)
      else Cat (der c r1) r2
  | Alt r1 r2 => Alt (der c r1) (der c r2)
  | Star r1 => Cat (der c r1) (Star r1)
  end.

(** [/^r$/.test(s)] *)
Fixpoint test (r : re) (s : jsstring) : bool :=
  match s with
  | [] => nullable r
  | c :: s' => test (der c r) s'
  end.

(** The strings a pattern denotes. *)
Inductive lang : re -> jsstring -> Prop :=
| lang_eps : lang Eps []
| lang_class p c : p c = true -> lang (Class p) [c]
| lang_cat r1 r2 s1 s2 : lang r1 s1 -> lang r2 s2 -> lang (Cat r1 r2) (s1 ++ s2)
| lang_alt_l r1 r2 s : lang r1 s -> lang (Alt r1 r2) s
| lang_alt_r r1 r2 s : lang r2 s -> lang (Alt r1 r2) s
| lang_star_nil r : lang (Star r) []
| lang_star_cons r s1 s2 : lang r s1 -> lang (Star r) s2 -> lang (Star r) (s1 ++ s2).

End Regex.

(** ** Email rule *)

(** [[^\s@]] *)
Definition notSpaceAt (c : char16) : bool := negb (isWhiteSpace c || (c =? 64)%N).

(** The pattern [^[^\s@]+@[^\s@]+\.[^\s@]+$] between its anchors. *)
Definition email_pattern : Regex.re :=
  Regex.Cat (Regex.Plus (Regex.Class notSpaceAt))
    (Regex.Cat (Regex.Chr 64)
       (Regex.Cat (Regex.Plus (Regex.Class notSpaceAt))
          (Regex.Cat (Regex.Chr 46)
             (Regex.Plus (Regex.Class notSpaceAt))))).

(** [validateEmail(email)] *)
Definition validateEmail (email : jsstring) : bool := Regex.test email_pattern email.

(** A non-empty run of characters that are neither white space nor [@]. *)
Definition run_of_plain (s : jsstring) : Prop :=
  s <> [] /\ Forall (fun c => isWhiteSpace c = false /\ c <> 64%N) s.

(** ** Numbers *)

Inductive number : Type :=
| NaN
| Infinity (negative : bool)
| Finite (q : Q).

(** [isNaN(x)] on a number *)
Definition isNaN (x : number) : bool :=
  match x with NaN => true | _ => false end.

(** [x < y] on numbers: false as soon as one side is [NaN]. *)
Definition lt (x y : number) : bool :=
  match x, y with
  | NaN, _ | _, NaN => false
  | Infinity true, Infinity true => false
  | Infinity true, _ => true
  | _, Infinity true => false
  | Infinity false, _ => false
  | Finite _, Infinity false => true
  | Finite a, Finite b => if Qlt_le_dec a b then true else false
  end.

(** [x > y] *)
Definition gt (x y : number) : bool := lt y x.

(** ToBoolean on a number: [0] and [NaN] are falsy. *)
Definition number_truthy (x : number) : bool :=
  match x with
  | NaN => false
  | Infinity _ => true
  | Finite q => negb (Qeq_bool q 0)
  end.

Module Double.

(** Nearest integer to [n / d] ([0 <= n], [0 < d]), ties to even. *)
Definition div_half_even (n d : Z) : Z :=
  let q := n / d in
  let r := n mod d in
  match (2 * r ?= d) with
  | Lt => q
  | Gt => q + 1
  | Eq => if Z.even q then q else q + 1
  end.

(** [n * 2^k / d] as a pair numerator, denominator, for any sign of [k]. *)
Definition scaled (n d k : Z) : Z * Z :=
  if 0 <=? k then (n * 2 ^ k, d) else (n, d * 2 ^ (- k)).

(** [floor (log2 (n / d))] for [0 < n], [0 < d]. *)
Definition floor_log2 (n d : Z) : Z :=
  let e := Z.log2 n - Z.log2 d in
  let '(a, b) := scaled n d (- e) in
  if b <=? a then e else e - 1.

(** The value [m * 2^e] as a rational. *)
Definition dyadic (m e : Z) : Q :=
  if 0 <=? e then inject_Z (m * 2 ^ e) else Qmake m (Z.to_pos (2 ^ (- e))).

(** The double nearest to the positive rational [n / d] (round to nearest,
    ties to even; 53 bits of precision, exponents from -1074, overflow to
    infinity at [2^1024]). *)
Definition round_pos (n d : Z) : option (Z * Z) :=
  let e := Z.max (floor_log2 n d - 52) (- 1074) in
  let '(a, b) := scaled n d (- e) in
  let m := div_half_even a b in
  if (e + Z.log2 m <? 1024) then Some (m, e) else None.

(** The number a decimal literal with digits [n] and exponent [k]
    ([n * 10^k], negated when [neg]) denotes. *)
Definition of_decimal (neg : bool) (n k : Z) : number :=
  if n =? 0 then Finite 0
  else
    let '(a, b) := if 0 <=? k then (n * 10 ^ k, 1) else (n, 10 ^ (- k)) in
    match round_pos a b with
    | Some (m, e) => Finite (dyadic (if neg then - m else m) e)
    | None => Infinity neg
    end.

End Double.

(** ** parseFloat on a string *)

Definition digitsValue (ds : jsstring) : Z :=
  fold_left (fun a d => 10 * a + (Z.of_N d - 48)) ds 0.

Definition isEmpty {A} (l : list A) : bool :=
  match l with [] => true | _ => false end.

(** An optional sign: whether it is a minus, and what follows it. *)
Definition signOf (s : jsstring) : bool * jsstring :=
  match s with
  | 43%N :: r => (false, r)
  | 45%N :: r => (true, r)
  | _ => (false, s)
  end.

(** The exponent part [e], [E] followed by an optional sign and at least
    one digit; anything else is not part of the literal. *)
Definition exponentOf (s : jsstring) : Z :=
  match s with
  | c :: r =>
      if ((c =? 101) || (c =? 69))%N then
        let '(neg, r') := signOf r in
        let ds := takeWhile isDigit r' in
        if isEmpty ds then 0
        else if neg then - digitsValue ds else digitsValue ds
      else 0
  | [] => 0
  end.

(** [parseFloat(s)] on a string: leading white space is skipped and the
    longest prefix that is a decimal literal is read; [NaN] when there is
    none. *)
Definition parseFloat (s : jsstring) : number :=
  let '(neg, s1) := signOf (trimStart s) in
  if isPrefix (js "Infinity") s1 then Infinity neg
  else
    let ip := takeWhile isDigit s1 in
    let s2 := dropWhile isDigit s1 in
    let '(fp, s3) :=
      match s2 with
      | 46%N :: r => (takeWhile isDigit r, dropWhile isDigit r)
      | _ => ([], s2)
      end in
    if isEmpty ip && isEmpty fp then NaN
    else
      Double.of_decimal neg (digitsValue (ip ++ fp))
        (exponentOf s3 - Z.of_nat (length fp)).

(** ** Completions *)

Inductive exn : Type := TypeError.

(** The outcome of an evaluation that can throw. *)
Inductive completion (A : Type) : Type :=
| Normal (a : A)
| Throw (e : exn).
Arguments Normal {A} a.
Arguments Throw {A} e.

#[global] Instance completion_ret : MRet completion := @Normal.
#[global] Instance completion_bind : MBind completion :=
  fun A B f m => match m with Normal a => f a | Throw e => Throw e end.

(** ** Parsed request bodies *)

(** What [request.json()] resolves to.  The fields of an object are its own
    properties, each name once. *)
Inductive json : Type :=
| JNull
| JBool (b : bool)
| JNum (n : number)
| JStr (s : jsstring)
| JArr (items : list json)
| JObj (fields : list (jsstring * json)).

(** The value of a property read: [None] is [undefined]. *)
Abbreviation value := (option json) (only parsing).

Fixpoint assoc {A} (k : jsstring) (l : list (jsstring * A)) : option A :=
  match l with
  | [] => None
  | (k', v) :: r => if bool_decide (k' = k) then Some v else assoc k r
  end.

(** [v.k] for a property name [k] that no built-in prototype defines (the
    field names of a submission): reading from [null] throws, an object
    yields its own property, any other value yields [undefined]. *)
Definition Get (v : json) (k : jsstring) : completion value :=
  match v with
  | JNull => Throw TypeError
  | JObj fields => Normal (assoc k fields)
  | _ => Normal None
  end.

(** ToBoolean *)
Definition truthy (v : value) : bool :=
  match v with
  | None | Some JNull => false
  | Some (JBool b) => b
  | Some (JNum n) => number_truthy n
  | Some (JStr s) => negb (isEmpty s)
  | Some (JArr _) | Some (JObj _) => true
  end.

(** An array index as a property name. *)
Definition decimal (n : nat) : jsstring := js (pretty n).

(** [Object.entries(v)]: the own enumerable string-keyed properties. *)
Definition entries (v : json) : list (jsstring * json) :=
  match v with
  | JObj fields => fields
  | JArr items => imap (fun i x => (decimal i, x)) items
  | JStr s => imap (fun i c => (decimal i, JStr [c])) s
  | _ => []
  end.

Section Coercions.

(** Number::toString, the runtime's shortest round-trip printing of a
    number, is taken as a parameter. *)
Variable Number_toString : number -> jsstring.

(** ToString on a parsed value.  An array prints its elements separated
    by commas, [null] elements as the empty string; an object prints as
    [[object Object]], unless it has an own [toString] property, which
    (never a function in parsed data) makes the conversion throw. *)
Fixpoint ToString (v : json) : completion jsstring :=
  match v with
  | JNull => Normal (js "null")
  | JBool true => Normal (js "true")
  | JBool false => Normal (js "false")
  | JNum n => Normal (Number_toString n)
  | JStr s => Normal s
  | JArr items =>
      let fix each (l : list json) : completion (list jsstring) :=
        match l with
        | [] => Normal []
        | x :: r =>
            s ← match x with JNull => Normal [] | _ => ToString x end;
            ss ← each r;
            Normal (s :: ss)
        end in
      ss ← each items; Normal (join (js ",") ss)
  | JObj fields =>
      match assoc (js "toString") fields with
      | Some _ => Throw TypeError
      | None => Normal (js "[object Object]")
      end
  end.

(** ToString on the value of a property read. *)
Definition ToStringV (v : value) : completion jsstring :=
  match v with
  | None => Normal (js "undefined")
  | Some x => ToString x
  end.

(** ** Validation rules *)

(** [['nowy', 'istniejący'].includes(v)] *)
Definition includes (l : list jsstring) (v : value) : bool :=
  match v with
  | Some (JStr s) => existsb (fun x => bool_decide (x = s)) l
  | _ => false
  end.

Definition rule_buildingType (data : json) : completion (list jsstring) :=
  bt ← Get data (js "buildingType");
  Normal (if negb (truthy bt) || negb (includes [js "nowy"; js "istniejący"] bt)
          then [js "Nieprawidłowy typ budynku"] else []).

(** [isNaN(area) || area < 20 || area > 2000] *)
Definition area_rejected (area : number) : bool :=
  isNaN area || lt area (Finite 20) || gt area (Finite 2000).

Definition rule_area (data : json) : completion (list jsstring) :=
  v ← Get data (js "area");
  s ← ToStringV v;
  let area := parseFloat s in
  Normal (if area_rejected area then [js "Nieprawidłowa powierzchnia"] else []).

(** [v.trim()]: only a string has the method. *)
Definition call_trim (v : value) : completion jsstring :=
  match v with
  | Some (JStr s) => Normal (trim s)
  | _ => Throw TypeError
  end.

Definition rule_location (data : json) : completion (list jsstring) :=
  v ← Get data (js "location");
  if negb (truthy v) then Normal [js "Brak województwa"]
  else
    t ← call_trim v;
    Normal (if isEmpty t then [js "Brak województwa"] else []).

(** [validateEmail(v)]: the pattern is tested against [ToString(v)]. *)
Definition rule_email (data : json) : completion (list jsstring) :=
  v ← Get data (js "email");
  if negb (truthy v) then Normal [js "Nieprawidłowy adres email"]
  else
    s ← ToStringV v;
    Normal (if negb (validateEmail s) then [js "Nieprawidłowy adres email"] else []).

(** [validatePhone(v)]: [v.replace] exists on strings only. *)
Definition rule_phone (data : json) : completion (list jsstring) :=
  v ← Get data (js "phone");
  if negb (truthy v) then Normal [js "Nieprawidłowy numer telefonu"]
  else
    match v with
    | Some (JStr s) =>
        Normal (if negb (validatePhone s) then [js "Nieprawidłowy numer telefonu"] else [])
    | _ => Throw TypeError
    end.

(** The server-side validation block of [POST]: the [errors] array after
    the five checks. *)
Definition validate (data : json) : completion (list jsstring) :=
  e1 ← rule_buildingType data;
  e2 ← rule_area data;
  e3 ← rule_location data;
  e4 ← rule_email data;
  e5 ← rule_phone data;
  Normal (e1 ++ e2 ++ e3 ++ e4 ++ e5).

End Coercions.

(** ** Rate limiter *)

Record RateRecord : Type := { count : Z; timestamp : Z }.

Definition RATE_LIMIT_WINDOW : Z := 60 * 1000.
Definition RATE_LIMIT_MAX : Z := 5.

(** [checkRateLimit(ip)] at time [now = Date.now()] on the table
    [rateLimitMap]: the answer and the table afterwards. *)
Definition checkRateLimit (ip : jsstring) (now : Z) (rateLimitMap : gmap (list N) RateRecord)
  : bool * gmap (list N) RateRecord :=
  match rateLimitMap !! ip with
  | Some record =>
      if now - timestamp record >? RATE_LIMIT_WINDOW then
        (true, <[ip := {| count := 1; timestamp := now |}]> rateLimitMap)
      else if count record >=? RATE_LIMIT_MAX then
        (false, rateLimitMap)
      else
        (true, <[ip := {| count := count record + 1; timestamp := timestamp record |}]> rateLimitMap)
  | None =>
      (true, <[ip := {| count := 1; timestamp := now |}]> rateLimitMap)
  end.

(** One run of the periodic clean-up at time [now]: expired records are
    deleted. *)
Definition sweep (now : Z) (rateLimitMap : gmap (list N) RateRecord) : gmap (list N) RateRecord :=
  filter (fun kv => ¬ (now - timestamp kv.2 > RATE_LIMIT_WINDOW)) rateLimitMap.

(** ** Message composers *)

Definition nl : jsstring := [10%N].

(** A field of the sanitized submission inside a template: a missing
    property prints as [undefined]. *)
Definition show (v : option jsstring) : jsstring := default (js "undefined") v.

(** [if (data.X)]: the property is there and is not the empty string. *)
Definition present (v : option jsstring) : bool :=
  match v with Some (_ :: _) => true | _ => false end.

(** [base + ` (${detail} unit)`] when [detail] is present. *)
Definition withDetail (base : jsstring) (detail : option jsstring) (unit_ : jsstring) : jsstring :=
  if present detail then base ++ js " (" ++ show detail ++ unit_ else base.

(** [formatLeadEmail(data)]; [stamp] is what
    [new Date().toLocaleString('pl-PL', ...)] returns at the call. *)
Definition formatLeadEmail (data : gmap (list N) (list N)) (stamp : jsstring) : jsstring :=
  let sections :=
    [ js "## Nowe zgłoszenie - Argentech" ++ nl;
      js "### Dane kontaktowe";
      js "- **Email:** " ++ show (data !! js "email");
      js "- **Telefon:** " ++ show (data !! js "phone");
      [];
      js "### Informacje o budynku";
      js "- **Typ budynku:** " ++ show (data !! js "buildingType");
      js "- **Powierzchnia:** " ++ show (data !! js "area") ++ js " m²";
      js "- **Województwo:** " ++ show (data !! js "location") ] in
  let sections :=
    if present (data !! js "currentHeating")
    then sections ++ [js "- **Aktualne źródło ciepła:** " ++ show (data !! js "currentHeating")]
    else sections in
  let sections :=
    if present (data !! js "installation")
    then sections ++ [js "- **Instalacja grzewcza:** " ++ show (data !! js "installation")]
    else sections in
  let sections := sections ++ [[]] in
  let sections := sections ++ [js "### Dodatkowe informacje"] in
  let sections :=
    if present (data !! js "hasPV") then
      let pvInfo :=
        withDetail (show (data !! js "hasPV")) (data !! js "pvPower") (js " kWp)") in
      sections ++ [js "- **Fotowoltaika:** " ++ pvInfo]
    else sections in
  let sections :=
    if present (data !! js "hasStorage") then
      let storageInfo :=
        withDetail (show (data !! js "hasStorage")) (data !! js "storageCapacity") (js " kWh)") in
      sections ++ [js "- **Magazyn energii:** " ++ storageInfo]
    else sections in
  let sections :=
    if present (data !! js "notes")
    then sections ++ [[]; js "### Uwagi od klienta"; show (data !! js "notes")]
    else sections in
  let sections := sections ++ [[]] in
  let sections := sections ++ [js "---"] in
  let sections := sections ++ [js "Zgłoszenie z: " ++ stamp] in
  join nl sections.

(** [formatLeadHtml(data)]; [stamp] as in [formatLeadEmail]. *)
Definition formatLeadHtml (data : gmap (list N) (list N)) (stamp : jsstring) : jsstring :=
  let html :=
      tpl "
    <div style=`font-family: -apple-system, BlinkMacSystemFont, 'Segoe UI', Roboto, sans-serif; max-width: 600px; margin: 0 auto;`>
      <h2 style=`color: #243B53; border-bottom: 2px solid #243B53; padding-bottom: 10px;`>Nowe zgłoszenie - Argentech</h2>
      
      <h3 style=`color: #2c3039; margin-top: 24px;`>Dane kontaktowe</h3>
      <table style=`width: 100%; border-collapse: collapse;`>
        <tr>
          <td style=`padding: 8px 0; color: #5c6370; width: 40%;`>Email:</td>
          <td style=`padding: 8px 0; color: #2c3039;`><strong>"
      ++ show (data !! js "email")
      ++ tpl "</strong></td>
        </tr>
        <tr>
          <td style=`padding: 8px 0; color: #5c6370;`>Telefon:</td>
          <td style=`padding: 8px 0; color: #2c3039;`><strong>"
      ++ show (data !! js "phone")
      ++ tpl "</strong></td>
        </tr>
      </table>
      
      <h3 style=`color: #2c3039; margin-top: 24px;`>Informacje o budynku</h3>
      <table style=`width: 100%; border-collapse: collapse;`>
        <tr>
          <td style=`padding: 8px 0; color: #5c6370; width: 40%;`>Typ budynku:</td>
          <td style=`padding: 8px 0; color: #2c3039;`>"
      ++ show (data !! js "buildingType")
      ++ tpl "</td>
        </tr>
        <tr>
          <td style=`padding: 8px 0; color: #5c6370;`>Powierzchnia:</td>
          <td style=`padding: 8px 0; color: #2c3039;`>"
      ++ show (data !! js "area")
      ++ tpl " m²</td>
        </tr>
        <tr>
          <td style=`padding: 8px 0; color: #5c6370;`>Województwo:</td>
          <td style=`padding: 8px 0; color: #2c3039;`>"
      ++ show (data !! js "location")
      ++ tpl "</td>
        </tr>
  " in
  let html :=
    if present (data !! js "currentHeating") then
      html ++ tpl "
        <tr>
          <td style=`padding: 8px 0; color: #5c6370;`>Aktualne źródło ciepła:</td>
          <td style=`padding: 8px 0; color: #2c3039;`>"
      ++ show (data !! js "currentHeating")
      ++ tpl "</td>
        </tr>
    "
    else html in
  let html :=
    if present (data !! js "installation") then
      html ++ tpl "
        <tr>
          <td style=`padding: 8px 0; color: #5c6370;`>Instalacja grzewcza:</td>
          <td style=`padding: 8px 0; color: #2c3039;`>"
      ++ show (data !! js "installation")
      ++ tpl "</td>
        </tr>
    "
    else html in
  let html := html ++ tpl "</table>" in
  let html :=
    if present (data !! js "hasPV") || present (data !! js "hasStorage") then
      let html := html ++ tpl "<h3 style=`color: #2c3039; margin-top: 24px;`>Dodatkowe informacje</h3>
      <table style=`width: 100%; border-collapse: collapse;`>" in
      let html :=
        if present (data !! js "hasPV") then
          let pvInfo :=
            withDetail (show (data !! js "hasPV")) (data !! js "pvPower") (js " kWp)") in
          html ++ tpl "
        <tr>
          <td style=`padding: 8px 0; color: #5c6370; width: 40%;`>Fotowoltaika:</td>
          <td style=`padding: 8px 0; color: #2c3039;`>"
      ++ pvInfo
      ++ tpl "</td>
        </tr>
      "
        else html in
      let html :=
        if present (data !! js "hasStorage") then
          let storageInfo :=
            withDetail (show (data !! js "hasStorage")) (data !! js "storageCapacity") (js " kWh)") in
          html ++ tpl "
        <tr>
          <td style=`padding: 8px 0; color: #5c6370;`>Magazyn energii:</td>
          <td style=`padding: 8px 0; color: #2c3039;`>"
      ++ storageInfo
      ++ tpl "</td>
        </tr>
      "
        else html in
      html ++ tpl "</table>"
    else html in
  let html :=
    if present (data !! js "notes") then
      html ++ tpl "
      <h3 style=`color: #2c3039; margin-top: 24px;`>Uwagi od klienta</h3>
      <p style=`color: #2c3039; background-color: #f5f6f7; padding: 12px; border-radius: 4px;`>"
      ++ replaceAll (fun c => (c =? 10)%N) (js "<br>") (show (data !! js "notes"))
      ++ tpl "</p>
    "
    else html in
  html ++ tpl "
      <hr style=`margin-top: 32px; border: none; border-top: 1px solid #e2e4e8;`>
      <p style=`color: #7a8291; font-size: 12px;`>
        Zgłoszenie z: "
      ++ stamp
      ++ tpl "
      </p>
    </div>
  ".

(** [getConfirmationEmailHtml()] *)
Definition getConfirmationEmailHtml : jsstring :=
  tpl "
    <div style=`font-family: -apple-system, BlinkMacSystemFont, 'Segoe UI', Roboto, sans-serif; max-width: 600px; margin: 0 auto; padding: 20px;`>
      <h2 style=`color: #243B53;`>Dziękujemy za zgłoszenie</h2>
      <p style=`color: #2c3039; line-height: 1.6;`>
        Otrzymaliśmy Twoje zgłoszenie dotyczące analizy systemu grzewczego.
      </p>
      <p style=`color: #2c3039; line-height: 1.6;`>
        <strong>Skontaktujemy się w ciągu 24–48 godzin</strong>, aby omówić szczegóły 
        i przygotować indywidualną wycenę.
      </p>
      <p style=`color: #2c3039; line-height: 1.6;`>
        W międzyczasie, jeśli masz dodatkowe pytania, możesz odpowiedzieć na tę wiadomość.
      </p>
      <hr style=`margin-top: 32px; border: none; border-top: 1px solid #e2e4e8;`>
      <p style=`color: #7a8291; font-size: 12px;`>
        Argentech – Niezależne doradztwo techniczne
      </p>
    </div>
  ".


(** ** The handler *)

(** [import.meta.env]: a variable is a string or is not defined. *)
Record Env : Type := {
  RESEND_API_KEY : option jsstring;
  LEAD_TO_EMAIL : option jsstring;
  LEAD_FROM_EMAIL : option jsstring;
  LEAD_REPLY_TO_EMAIL : option jsstring
}.

(** What the handler reads of a request: [clientAddress], the header
    [x-forwarded-for] ([None] when [headers.get] returns [null]) and the
    outcome of [request.json()] ([None] when it rejects). *)
Record Request : Type := {
  clientAddress : option jsstring;
  forwardedFor : option jsstring;
  body : option json
}.

(** The object a response serializes with [JSON.stringify]. *)
Inductive ResponseBody : Type :=
| ErrorBody (error : jsstring)
| SuccessBody.

Record Response : Type := {
  status : Z;
  contentType : jsstring;
  payload : ResponseBody
}.

Definition respond (b : ResponseBody) (code : Z) : Response :=
  {| status := code; contentType := js "application/json"; payload := b |}.

(** The argument of [resend.emails.send]. *)
Record Email : Type := {
  from : option jsstring;
  to : option jsstring;
  replyTo : option jsstring;
  subject : jsstring;
  text : option jsstring;
  html : jsstring
}.

(** [a || b] on strings that may be missing. *)
Definition orElse (a b : option jsstring) : option jsstring :=
  if present a then a else b.

(** [clientAddress || request.headers.get('x-forwarded-for') || 'unknown'] *)
Definition clientId (req : Request) : jsstring :=
  show (orElse (orElse (clientAddress req) (forwardedFor req)) (Some (js "unknown"))).

(** [!apiKey || !toEmail || !fromEmail] is false. *)
Definition configured (env : Env) : bool :=
  present (RESEND_API_KEY env) && present (LEAD_TO_EMAIL env) && present (LEAD_FROM_EMAIL env).

(** The sanitizing loop over [Object.entries(data)]: string values are
    sanitized and stored, the others are left out.  (An assignment to the
    name [__proto__] of a plain object stores nothing when the value is a
    string.) *)
Definition sanitizeAll (data : json) : gmap (list N) (list N) :=
  foldl (fun sanitizedData kv =>
           match kv.2 with
           | JStr s =>
               if bool_decide (kv.1 = js "__proto__") then sanitizedData
               else <[kv.1 := sanitize s]> sanitizedData
           | _ => sanitizedData
           end) ∅ (entries data).

Section Handler.

Variable Number_toString : number -> jsstring.

(** The delivery collaborator: [emails_send msg w] is whether the awaited
    call resolves ([true]) or rejects ([false]) in the state [w] of the
    outside world, and the state it leaves.  The handler does not look at
    the value a resolved call returns. *)
Variable World : Type.
Variable emails_send : Email -> World -> bool * World.

(** The module-level table, the outside world, and the delivery calls
    issued so far, oldest first. *)
Record Server : Type := {
  rateLimitMap : gmap (list N) RateRecord;
  world : World;
  calls : list Email
}.

(** [await resend.emails.send(msg)] *)
Definition send (msg : Email) (σ : Server) : bool * Server :=
  let '(ok, w) := emails_send msg (world σ) in
  (ok, {| rateLimitMap := rateLimitMap σ; world := w; calls := calls σ ++ [msg] |}).

Definition notification (env : Env) (sanitizedData : gmap (list N) (list N))
    (stampText stampHtml : jsstring) : Email :=
  {| from := LEAD_FROM_EMAIL env;
     to := LEAD_TO_EMAIL env;
     replyTo := sanitizedData !! js "email";
     subject := js "Nowe zgłoszenie - " ++ show (sanitizedData !! js "buildingType")
                  ++ js " " ++ show (sanitizedData !! js "area")
                  ++ js "m² (" ++ show (sanitizedData !! js "location") ++ js ")";
     text := Some (formatLeadEmail sanitizedData stampText);
     html := formatLeadHtml sanitizedData stampHtml |}.

Definition confirmation (env : Env) (sanitizedData : gmap (list N) (list N)) : Email :=
  {| from := LEAD_FROM_EMAIL env;
     to := sanitizedData !! js "email";
     replyTo := orElse (LEAD_REPLY_TO_EMAIL env) (sanitizedData !! js "email");
     subject := js "Argentech - Potwierdzenie zgłoszenia";
     text := None;
     html := getConfirmationEmailHtml |}.

Definition deliveryError : Response :=
  respond (ErrorBody (js "Nie udało się wysłać zgłoszenia. Proszę spróbować ponownie.")) 500.

(** The [try] block of [POST]: a rejected send is caught and answered
    with the delivery error. *)
Definition deliver (env : Env) (sanitizedData : gmap (list N) (list N))
    (stampText stampHtml : jsstring) (σ : Server) : Response * Server :=
  let '(ok1, σ1) := send (notification env sanitizedData stampText stampHtml) σ in
  if negb ok1 then (deliveryError, σ1)
  else
    let '(ok2, σ2) := send (confirmation env sanitizedData) σ1 in
    if negb ok2 then (deliveryError, σ2)
    else (respond SuccessBody 200, σ2).

(** [POST({ request, clientAddress })] run at time [now], with the two
    time stamps the composers read: the completion of the handler (a
    response, or an exception that leaves it) and the server afterwards. *)
Definition POST (env : Env) (req : Request) (now : Z) (stampText stampHtml : jsstring)
    (σ : Server) : completion Response * Server :=
  if negb (configured env) then
    (Normal (respond (ErrorBody (js "Konfiguracja serwera nieprawidłowa. Proszę spróbować później.")) 500), σ)
  else
    let ip := clientId req in
    let '(allowed, table) := checkRateLimit ip now (rateLimitMap σ) in
    let σ := {| rateLimitMap := table; world := world σ; calls := calls σ |} in
    if negb allowed then
      (Normal (respond (ErrorBody (js "Zbyt wiele zgłoszeń. Proszę spróbować za chwilę.")) 429), σ)
    else
      match body req with
      | None => (Normal (respond (ErrorBody (js "Nieprawidłowe dane.")) 400), σ)
      | Some data =>
          match validate Number_toString data with
          | Throw e => (Throw e, σ)
          | Normal errors =>
              if negb (isEmpty errors) then
                (Normal (respond (ErrorBody (join (js ". ") errors)) 400), σ)
              else
                let '(r, σ') := deliver env (sanitizeAll data) stampText stampHtml σ in
                (Normal r, σ')
          end
      end.

(** The server once the rate limiter has answered the request. *)
Definition afterRateCheck (req : Request) (now : Z) (σ : Server) : Server :=
{| rateLimitMap := (checkRateLimit (clientId req) now (rateLimitMap σ)).2;
   world := world σ;
   calls := calls σ |}.

End Handler.

Arguments Build_Server {World} _ _ _.
Arguments rateLimitMap {World} _.
Arguments world {World} _.
Arguments calls {World} _.
Arguments send {World} _ _ _.
Arguments deliver {World} _ _ _ _ _ _.
Arguments POST _ {World} _ _ _ _ _ _ _.
Arguments afterRateCheck {World} _ _ _.

(** ** The delivery service behind the awaited call *)

(** What awaiting [resend.emails.send] can come to: the call resolves to a
    value that reports the delivery, it resolves to a value that reports an
    error, or it rejects. *)
Inductive SendOutcome : Type :=
| Delivered
| Refused
| Rejected.

(** Whether the awaited call resolves; the handler does not look at the
    value it resolves to. *)
Definition resolves (o : SendOutcome) : bool :=
  match o with
  | Rejected => false
  | Delivered | Refused => true
  end.

(** The collaborator of [POST] that a delivery service gives: of an
    outcome, the handler sees whether the call resolves. *)
Definition awaited {World : Type} (service : Email -> World -> SendOutcome * World)
    (msg : Email) (w : World) : bool * World :=
  let '(o, w') := service msg w in (resolves o, w').

(** ** Runs of the rate limiter *)

(** What happens to the table: a request of a client at a time, or a run of
    the periodic clean-up. *)
Inductive event : Type :=
| Req (ip : jsstring) (now : Z)
| Sweep (now : Z).

Definition apply (e : event) (m : gmap (list N) RateRecord) : gmap (list N) RateRecord :=
  match e with
  | Req ip now => (checkRateLimit ip now m).2
  | Sweep now => sweep now m
  end.

(** The table after the events [es], first to last. *)
Fixpoint run (es : list event) (m : gmap (list N) RateRecord) : gmap (list N) RateRecord :=
  match es with
  | [] => m
  | e :: r => run r (apply e m)
  end.

(** The answers given to the requests of [ip] among [es], in order. *)
Fixpoint answers (ip : jsstring) (es : list event) (m : gmap (list N) RateRecord) : list bool :=
  match es with
  | [] => []
  | e :: r =>
      match e with
      | Req ip' now =>
          if bool_decide (ip' = ip)
          then (checkRateLimit ip' now m).1 :: answers ip r (apply e m)
          else answers ip r (apply e m)
      | Sweep _ => answers ip r (apply e m)
      end
  end.

(** How many requests of [ip] there are among [es]. *)
Fixpoint requests (ip : jsstring) (es : list event) : nat :=
  match es with
  | [] => 0
  | Req ip' _ :: r => if bool_decide (ip' = ip) then S (requests ip r) else requests ip r
  | Sweep _ :: r => requests ip r
  end.

(** [e] falls inside the window that [ip] opened at [t0]: a request of [ip]
    or a clean-up no later than [t0 + RATE_LIMIT_WINDOW]; the requests of
    other clients are not constrained. *)
Definition inside (ip : jsstring) (t0 : Z) (e : event) : Prop :=
  match e with
  | Req ip' now => ip' = ip -> now - t0 <= RATE_LIMIT_WINDOW
  | Sweep now => now - t0 <= RATE_LIMIT_WINDOW
  end.

(** ** Submissions with string fields *)

(** A submission as the data model has it, a mapping from field names to
    raw strings, as the parsed body of a request. *)
Definition submission (raw : list (jsstring * jsstring)) : json :=
  JObj (map (fun kv => (kv.1, JStr kv.2)) raw).

(** The five field rules as the validation table states them, each on the
    raw string of its own field ([None] when the field is missing), to be
    compared with [validate]. *)
Definition fails_buildingType (v : option jsstring) : bool :=
  negb (bool_decide (v = Some (js "nowy") \/ v = Some (js "istniejący"))).
Definition fails_area (v : option jsstring) : bool :=
  area_rejected (parseFloat (show v)).
Definition fails_location (v : option jsstring) : bool :=
  isEmpty (trim (default [] v)).
Definition fails_email (v : option jsstring) : bool :=
  negb (validateEmail (default [] v)).
Definition fails_phone (v : option jsstring) : bool :=
  negb (validatePhone (default [] v)).

(** The message of a rule that fails. *)
Definition when (failed : bool) (msg : jsstring) : list jsstring :=
  if failed then [msg] else [].

(** The messages of all the rules that fail on [raw], in the order of the
    checks. *)
Definition failures (raw : list (jsstring * jsstring)) : list jsstring :=
  when (fails_buildingType (assoc (js "buildingType") raw)) (js "Nieprawidłowy typ budynku")
  ++ when (fails_area (assoc (js "area") raw)) (js "Nieprawidłowa powierzchnia")
  ++ when (fails_location (assoc (js "location") raw)) (js "Brak województwa")
  ++ when (fails_email (assoc (js "email") raw)) (js "Nieprawidłowy adres email")
  ++ when (fails_phone (assoc (js "phone") raw)) (js "Nieprawidłowy numer telefonu").

(** ** Sample inputs *)

Module Sample.

Definition env : Env :=
  {| RESEND_API_KEY := Some (js "re_key");
     LEAD_TO_EMAIL := Some (js "biuro@argentech.example");
     LEAD_FROM_EMAIL := Some (js "formularz@argentech.example");
     LEAD_REPLY_TO_EMAIL := None |}.

(** A submission with the five required fields and nothing else. *)
Definition lead : list (jsstring * jsstring) :=
  [ (js "buildingType", js "nowy");
    (js "area", js "120");
    (js "location", js "mazowieckie");
    (js "email", js "jan@example.com");
    (js "phone", js "600 700 800") ].

(** A submission on which two rules fail. *)
Definition badLead : list (jsstring * jsstring) :=
  [ (js "buildingType", js "blok");
    (js "area", js "120");
    (js "location", js "mazowieckie");
    (js "email", js "jan@example.com");
    (js "phone", js "12345678") ].

Definition request (data : option json) : Request :=
  {| clientAddress := Some (js "203.0.113.7"); forwardedFor := None; body := data |}.

Definition stamp : jsstring := js "3.11.2026, 12:00:00".

(** A delivery collaborator that plays a script: the state of the world is
    the list of the outcomes of the sends to come (all succeed once the
    script is over). *)
Definition scripted (msg : Email) (w : list bool) : bool * list bool :=
  match w with
  | [] => (true, [])
  | ok :: r => (ok, r)
  end.

Definition server (script : list bool) : Server (list bool) :=
  {| rateLimitMap := ∅; world := script; calls := [] |}.

(** The samples hold no number: their printing is immaterial. *)
Definition printNumber (n : number) : jsstring := [].

Definition client : jsstring := js "203.0.113.7".

(** Seven requests of [client] inside one window, between those of another
    client and a clean-up. *)
Definition burst : list event :=
  [ Req client 2000; Req (js "198.51.100.1") 2500; Req client 3000; Sweep 30000;
    Req client 40000; Req client 50000; Req client 60000; Req client 61000 ].

End Sample.

Module SampleSends.

(** A delivery service that plays a script of outcomes (every send is
    delivered once the script is over). *)
Definition scripted (msg : Email) (w : list SendOutcome) : SendOutcome * list SendOutcome :=
  match w with
  | [] => (Delivered, [])
  | o :: r => (o, r)
  end.

Definition server (script : list SendOutcome) : Server (list SendOutcome) :=
  {| rateLimitMap := ∅; world := script; calls := [] |}.

End SampleSends.


(** ** Further notions for the statements below *)

(** The time at which an event happens. *)
Definition time_of (e : event) : Z :=
  match e with
  | Req _ now => now
  | Sweep now => now
  end.

(** The events that touch the record of [ip]: its own requests and the
    clean-ups. *)
Fixpoint ownEvents (ip : jsstring) (es : list event) : list event :=
  match es with
  | [] => []
  | Req ip' now :: r =>
      if bool_decide (ip' = ip) then Req ip' now :: ownEvents ip r else ownEvents ip r
  | Sweep now :: r => Sweep now :: ownEvents ip r
  end.

(** The clients that make a request among [es]. *)
Fixpoint clients (es : list event) : gset (list N) :=
  match es with
  | [] => ∅
  | Req ip _ :: r => {[ip]} ∪ clients r
  | Sweep _ :: r => clients r
  end.

Module SampleMore.

(** The requests of the sample client after a clean-up at 70000. *)
Definition later : list event :=
  [ Req Sample.client 70001; Req (js "198.51.100.1") 70002; Sweep 130002;
    Req Sample.client 130003 ].

(** The table the sample burst leaves. *)
Definition table : gmap (list N) RateRecord :=
  run (Req Sample.client 1000 :: Sample.burst) ∅.

(** A server on which the sample client has used up its window. *)
Definition busy : Server (list bool) :=
  {| rateLimitMap := table; world := [true; true]; calls := [] |}.

(** A body in which the email address is wrapped in an array. *)
Definition wrapped : list (jsstring * json) :=
  [ (js "buildingType", JStr (js "nowy"));
    (js "area", JStr (js "120"));
    (js "location", JStr (js "mazowieckie"));
    (js "email", JArr [JStr (js "jan@example.com")]);
    (js "phone", JStr (js "600 700 800")) ].

End SampleMore.

(** A parsed body that is neither [null] nor an object: a boolean, a
    number, a string or an array. *)
Definition nonObject (data : json) : bool :=
  match data with
  | JBool _ | JNum _ | JStr _ | JArr _ => true
  | JNull | JObj _ => false
  end.

(** The five validation messages, joined. *)
Definition everyMessage : jsstring :=
  js "Nieprawidłowy typ budynku. Nieprawidłowa powierzchnia. Brak województwa. Nieprawidłowy adres email. Nieprawidłowy numer telefonu".

(** How many times the code unit [c] occurs in [s]. *)
Definition countOf (c : char16) (s : jsstring) : nat :=
  length (filter (fun x => x = c) s).

(** [x] occurs in [l] as a contiguous piece. *)
Definition within (x l : jsstring) : Prop :=
  exists before after, l = before ++ x ++ after.
(** ** Properties of the rate limiter *)

Section RateLimiter.

Implicit Types (m : gmap (list N) RateRecord) (ip : list N) (r : RateRecord).

Lemma checkRateLimit_new ip now m :
  m !! ip = None ->
  checkRateLimit ip now m = (true, <[ip := {| count := 1; timestamp := now |}]> m).
Proof. intros H. unfold checkRateLimit. now rewrite H. Qed.

Lemma checkRateLimit_expired ip now m r :
  m !! ip = Some r -> now - timestamp r > RATE_LIMIT_WINDOW ->
  checkRateLimit ip now m = (true, <[ip := {| count := 1; timestamp := now |}]> m).
Proof.
  intros H Hexp. unfold checkRateLimit. rewrite H.
  destruct (Z.gtb_spec (now - timestamp r) RATE_LIMIT_WINDOW); [done | lia].
Qed.

Lemma checkRateLimit_below ip now m r :
  m !! ip = Some r -> now - timestamp r <= RATE_LIMIT_WINDOW -> count r < RATE_LIMIT_MAX ->
  checkRateLimit ip now m
  = (true, <[ip := {| count := count r + 1; timestamp := timestamp r |}]> m).
Proof.
  intros H Hin Hc. unfold checkRateLimit. rewrite H.
  destruct (Z.gtb_spec (now - timestamp r) RATE_LIMIT_WINDOW); [lia |].
  destruct (Z.geb_spec (count r) RATE_LIMIT_MAX); [lia | done].
Qed.

Lemma checkRateLimit_full ip now m r :
  m !! ip = Some r -> now - timestamp r <= RATE_LIMIT_WINDOW -> RATE_LIMIT_MAX <= count r ->
  checkRateLimit ip now m = (false, m).
Proof.
  intros H Hin Hc. unfold checkRateLimit. rewrite H.
  destruct (Z.gtb_spec (now - timestamp r) RATE_LIMIT_WINDOW); [lia |].
  destruct (Z.geb_spec (count r) RATE_LIMIT_MAX); [done | lia].
Qed.

(** A rejection leaves the whole table as it was. *)
Lemma checkRateLimit_rejected ip now m :
  (checkRateLimit ip now m).1 = false -> (checkRateLimit ip now m).2 = m.
Proof.
  unfold checkRateLimit. destruct (m !! ip) as [r|]; [|done].
  destruct (_ >? _); [done|]. now destruct (_ >=? _).
Qed.

(** A request touches the record of its own client only. *)
Lemma checkRateLimit_other ip ip' now m :
  ip' <> ip -> (checkRateLimit ip' now m).2 !! ip = m !! ip.
Proof.
  intros Hne. unfold checkRateLimit. destruct (m !! ip') as [r|]; simpl.
  - destruct (_ >? _); simpl; [by rewrite lookup_insert_ne|].
    destruct (_ >=? _); simpl; [done | by rewrite lookup_insert_ne].
  - by rewrite lookup_insert_ne.
Qed.

(** The clean-up keeps exactly the records that have not expired. *)
Lemma sweep_lookup now m ip r :
  sweep now m !! ip = Some r <-> m !! ip = Some r /\ now - timestamp r <= RATE_LIMIT_WINDOW.
Proof.
  unfold sweep. rewrite map_lookup_filter_Some. simpl. split; intros [? ?]; split; auto; lia.
Qed.

(** Inside its window the record of [ip] counts the requests of [ip], up
    to the limit, whatever other clients and the clean-up do. *)
Lemma window_run ip t0 es : forall m c,
  m !! ip = Some {| count := c; timestamp := t0 |} ->
  1 <= c <= RATE_LIMIT_MAX ->
  Forall (inside ip t0) es ->
  answers ip es m
  = replicate (Nat.min (requests ip es) (Z.to_nat (RATE_LIMIT_MAX - c))) true
    ++ replicate (requests ip es - Z.to_nat (RATE_LIMIT_MAX - c)) false
  /\ run es m !! ip
     = Some {| count := Z.min (c + Z.of_nat (requests ip es)) RATE_LIMIT_MAX; timestamp := t0 |}.
Proof.
  unfold RATE_LIMIT_MAX.
  induction es as [|e es IH]; intros m c Hm Hc Hin.
  - simpl. split; [done|]. rewrite Hm. do 2 f_equal. lia.
  - apply Forall_cons in Hin as [He Hin]. destruct e as [ip' now | now]; simpl.
    + destruct (bool_decide_reflect (ip' = ip)) as [-> | Hne].
      * simpl in He. specialize (He eq_refl).
        destruct (Z_lt_le_dec c 5) as [Hlt | Hge].
        -- rewrite (checkRateLimit_below ip now m _ Hm) by (simpl; unfold RATE_LIMIT_MAX; lia).
           simpl count; simpl timestamp; simpl fst; simpl snd.
           destruct (IH (<[ip := {| count := c + 1; timestamp := t0 |}]> m) (c + 1)) as [Ha Hr];
             [by rewrite lookup_insert_eq | lia | done |].
           rewrite Ha, Hr. split.
           ++ replace (Z.to_nat (5 - c)) with (S (Z.to_nat (5 - (c + 1)))) by lia.
              simpl. done.
           ++ do 2 f_equal. lia.
        -- rewrite (checkRateLimit_full ip now m _ Hm) by (simpl; unfold RATE_LIMIT_MAX; lia).
           simpl fst; simpl snd.
           destruct (IH m c) as [Ha Hr]; [done | lia | done |].
           rewrite Ha, Hr. replace (Z.to_nat (5 - c)) with 0%nat by lia.
           rewrite !Nat.min_0_r, !Nat.sub_0_r. simpl. split; [done|].
           do 2 f_equal. lia.
      * apply IH; [|done|done]. by rewrite checkRateLimit_other.
    + apply IH; [|done|done]. apply sweep_lookup. simpl in *. split; [done | lia].
Qed.

(** Every record of a table the server can reach keeps its count between
    1 and the limit. *)
Lemma apply_count_bounds e m :
  map_Forall (fun _ r => 1 <= count r <= RATE_LIMIT_MAX) m ->
  map_Forall (fun _ r => 1 <= count r <= RATE_LIMIT_MAX) (apply e m).
Proof.
  unfold RATE_LIMIT_MAX. intros Hm. destruct e as [ip now | now]; simpl.
  - unfold checkRateLimit. destruct (m !! ip) as [r|] eqn:Hr; simpl.
    + destruct (_ >? _); simpl; [apply map_Forall_insert_2; [simpl; lia | done]|].
      destruct (Z.geb_spec (count r) RATE_LIMIT_MAX); simpl; [done|].
      apply map_Forall_insert_2; [|done]. specialize (Hm _ _ Hr). simpl in *.
      unfold RATE_LIMIT_MAX in *. lia.
    + apply map_Forall_insert_2; [simpl; lia | done].
  - intros ip r Hl. apply sweep_lookup in Hl as [Hl _]. exact (Hm _ _ Hl).
Qed.

End RateLimiter.

(** C1. The rate limiter is a fixed window of 60000 ms per client.  When
    [ip] has no record, or one older than the window, its request at [t0]
    is admitted and opens a window with count 1.  Among the events that
    follow inside that window (requests of any client, clean-ups), the
    requests of [ip] are admitted up to the fifth of the window and rejected
    from the sixth on; a request with a count below 5 increments the count, a
    rejection leaves the table unchanged, and a request of [ip] later than
    [t0 + 60000] is admitted again with a new record of count 1. *)
Theorem checkRateLimit_fixed_window (ip : list N) (t0 t : Z) (es : list event)
    (m : gmap (list N) RateRecord) :
  (m !! ip = None \/ exists r, m !! ip = Some r /\ t0 - timestamp r > 60000) ->
  Forall (inside ip t0) es ->
  t - t0 > 60000 ->
  let k := requests ip es in
  let m' := run (Req ip t0 :: es) m in
  checkRateLimit ip t0 m = (true, <[ip := {| count := 1; timestamp := t0 |}]> m)
  /\ answers ip (Req ip t0 :: es) m
     = replicate (Nat.min (S k) 5) true ++ replicate (S k - 5) false
  /\ m' !! ip = Some {| count := Z.min (Z.of_nat (S k)) 5; timestamp := t0 |}
  /\ (forall now m1 r, m1 !! ip = Some r -> now - timestamp r <= 60000 -> count r < 5 ->
        checkRateLimit ip now m1
        = (true, <[ip := {| count := count r + 1; timestamp := timestamp r |}]> m1))
  /\ (forall now m1, (checkRateLimit ip now m1).1 = false -> (checkRateLimit ip now m1).2 = m1)
  /\ checkRateLimit ip t m' = (true, <[ip := {| count := 1; timestamp := t |}]> m').
Proof.
  intros Hfresh Hin Ht k m'.
  assert (Hopen : checkRateLimit ip t0 m
                  = (true, <[ip := {| count := 1; timestamp := t0 |}]> m)).
  { destruct Hfresh as [Hn | (r & Hr & Hexp)].
    - by apply checkRateLimit_new.
    - apply (checkRateLimit_expired _ _ _ r); [done | unfold RATE_LIMIT_WINDOW; lia]. }
  destruct (window_run ip t0 es (<[ip := {| count := 1; timestamp := t0 |}]> m) 1)
    as [Ha Hr]; [by rewrite lookup_insert_eq | unfold RATE_LIMIT_MAX; lia | done |].
  assert (Hm' : m' !! ip = Some {| count := Z.min (Z.of_nat (S k)) 5; timestamp := t0 |}).
  { subst m'. simpl run. unfold apply. rewrite Hopen. simpl snd. rewrite Hr.
    unfold RATE_LIMIT_MAX. do 2 f_equal. subst k. lia. }
  split; [done|]. split.
  { simpl answers. rewrite bool_decide_eq_true_2 by done. unfold apply.
    rewrite Hopen. simpl fst; simpl snd. rewrite Ha. unfold RATE_LIMIT_MAX.
    change (Z.to_nat (5 - 1)) with 4%nat. fold k.
    replace (S k - 5)%nat with (k - 4)%nat by lia.
    destruct (Nat.min_spec (S k) 5) as [[? ->] | [? ->]].
    - rewrite Nat.min_l by lia. done.
    - rewrite Nat.min_r by lia. done. }
  split; [done|]. split.
  { intros now m1 r H1 H2 H3. apply checkRateLimit_below; done. }
  split; [apply checkRateLimit_rejected|].
  apply (checkRateLimit_expired _ _ _ _ Hm'). simpl. unfold RATE_LIMIT_WINDOW. lia.
Qed.

(** C10. After any sequence of [checkRateLimit] calls and clean-up runs
    from the empty table, every record present has [1 <= count <= 5]. *)
Theorem rateLimitMap_count_bounds (es : list event) (ip : list N) (r : RateRecord) :
  run es ∅ !! ip = Some r -> 1 <= count r <= 5.
Proof.
  assert (H : forall es (m : gmap (list N) RateRecord),
             map_Forall (fun _ r => 1 <= count r <= RATE_LIMIT_MAX) m ->
             map_Forall (fun _ r => 1 <= count r <= RATE_LIMIT_MAX) (run es m)).
  { clear. induction es as [|e es IH]; intros m Hm; simpl; [done|].
    apply IH, apply_count_bounds, Hm. }
  intros Hl. exact (H es ∅ (map_Forall_empty _) ip r Hl).
Qed.

(** ** Properties of pattern matching *)

Module RegexFacts.
Import Regex.

Lemma nullable_spec r : nullable r = true <-> lang r [].
Proof.
  induction r as [| | p | r1 IH1 r2 IH2 | r1 IH1 r2 IH2 | r IH]; simpl.
  - split; [done | inversion 1].
  - split; [constructor | done].
  - split; [done | inversion 1].
  - rewrite andb_true_iff, IH1, IH2. split.
    + intros [H1 H2]. exact (lang_cat _ _ [] [] H1 H2).
    + inversion 1 as [| |? ? s1 s2 H1 H2 E1 E2| | | |]; subst.
      apply app_eq_nil in E2 as [-> ->]. done.
  - rewrite orb_true_iff, IH1, IH2. split.
    + intros [H|H]; [by apply lang_alt_l | by apply lang_alt_r].
    + inversion 1; subst; auto.
  - split; [constructor | done].
Qed.

(** A non-empty word of [r*] starts with a non-empty word of [r]. *)
Lemma star_cons r c s :
  lang (Star r) (c :: s) ->
  exists s1 s2, s = s1 ++ s2 /\ lang r (c :: s1) /\ lang (Star r) s2.
Proof.
  intros H. remember (Star r) as r' eqn:Er. remember (c :: s) as w eqn:Ew.
  revert s Ew.
  induction H as [| | | | | |r0 s1 s2 H1 _ H2 IH2]; try discriminate.
  injection Er as ->. intros s Ew. destruct s1 as [|c1 s1].
  - simpl in Ew. by apply IH2.
  - simpl in Ew. injection Ew as -> <-. eauto.
Qed.

Lemma der_spec c r : forall s, lang (der c r) s <-> lang r (c :: s).
Proof.
  induction r as [| | p | r1 IH1 r2 IH2 | r1 IH1 r2 IH2 | r IH]; intros s; simpl.
  - split; inversion 1.
  - split; inversion 1.
  - destruct (p c) eqn:Hp; split.
    + inversion 1; subst. by constructor.
    + inversion 1; subst. constructor.
    + inversion 1.
    + inversion 1; subst. congruence.
  - assert (Hcat : lang (Cat (der c r1) r2) s -> lang (Cat r1 r2) (c :: s)).
    { inversion 1 as [| |? ? s1 s2 H1 H2| | | |]; subst.
      apply IH1 in H1. exact (lang_cat _ _ (c :: s1) s2 H1 H2). }
    assert (Hinv : lang (Cat r1 r2) (c :: s) ->
                   lang (Cat (der c r1) r2) s \/ (lang r1 [] /\ lang r2 (c :: s))).
    { inversion 1 as [| |? ? s1 s2 H1 H2 E1 E2| | | |]; subst.
      destruct s1 as [|c1 s1]; simpl in E2.
      - subst. auto.
      - injection E2 as -> <-. left. apply lang_cat; [by apply IH1 | done]. }
    destruct (nullable r1) eqn:Hn; split.
    + inversion 1; subst; [by auto|].
      apply nullable_spec in Hn. apply (lang_cat _ _ [] (c :: s)); [done | by apply IH2].
    + intros H. destruct (Hinv H) as [H1 | [_ H2]];
        [by apply lang_alt_l | by apply lang_alt_r, IH2].
    + done.
    + intros H. destruct (Hinv H) as [H1 | [H1 _]]; [done|].
      apply nullable_spec in H1. congruence.
  - split.
    + inversion 1; subst; [apply lang_alt_l | apply lang_alt_r]; by (apply IH1 || apply IH2).
    + inversion 1; subst; [apply lang_alt_l | apply lang_alt_r]; by (apply IH1 || apply IH2).
  - split.
    + inversion 1 as [| |? ? s1 s2 H1 H2| | | |]; subst.
      apply IH in H1. exact (lang_star_cons _ (c :: s1) s2 H1 H2).
    + intros H. apply star_cons in H as (s1 & s2 & -> & H1 & H2).
      apply lang_cat; [by apply IH | done].
Qed.

(** The test decides membership in the language of the pattern. *)
Lemma test_spec s : forall r, test r s = true <-> lang r s.
Proof.
  induction s as [|c s IH]; intros r; simpl.
  - apply nullable_spec.
  - rewrite IH. apply der_spec.
Qed.

Lemma lang_chr c s : lang (Chr c) s <-> s = [c].
Proof.
  unfold Chr. split.
  - inversion 1 as [|p c' Hc| | | | |]; subst. by apply N.eqb_eq in Hc as ->.
  - intros ->. constructor. apply N.eqb_refl.
Qed.

Lemma lang_star_class p s : lang (Star (Class p)) s <-> Forall (fun c => p c = true) s.
Proof.
  split.
  - intros H. remember (Star (Class p)) as r eqn:Er.
    induction H as [| | | | | |r0 s1 s2 H1 _ H2 IH2]; try discriminate; [constructor|].
    injection Er as ->. inversion H1; subst. constructor; [done | by apply IH2].
  - induction 1 as [|c s Hc _ IH]; [constructor|].
    apply (lang_star_cons _ [c] s); [by constructor | done].
Qed.

(** [[class]+] denotes the non-empty runs of characters of the class. *)
Lemma lang_plus_class p s :
  lang (Plus (Class p)) s <-> s <> [] /\ Forall (fun c => p c = true) s.
Proof.
  unfold Plus. split.
  - inversion 1 as [| |? ? s1 s2 H1 H2| | | |]; subst. inversion H1; subst.
    apply lang_star_class in H2. split; [done | by constructor].
  - intros [Hne Hall]. destruct s as [|c s]; [done|].
    apply Forall_cons in Hall as [Hc Hall].
    apply (lang_cat _ _ [c] s); [by constructor | by apply lang_star_class].
Qed.

Lemma lang_cat_inv r1 r2 s :
  lang (Cat r1 r2) s <-> exists s1 s2, s = s1 ++ s2 /\ lang r1 s1 /\ lang r2 s2.
Proof.
  split.
  - inversion 1; subst; eauto.
  - intros (s1 & s2 & -> & H1 & H2). by constructor.
Qed.

End RegexFacts.

Lemma run_of_plain_lang s :
  Regex.lang (Regex.Plus (Regex.Class notSpaceAt)) s <-> run_of_plain s.
Proof.
  rewrite RegexFacts.lang_plus_class. unfold run_of_plain, notSpaceAt.
  split; intros [Hne Hall]; (split; [done|]); eapply Forall_impl; try exact Hall;
    intros c; simpl; rewrite negb_true_iff, orb_false_iff, N.eqb_neq; done.
Qed.

(** C8. [validateEmail] accepts exactly the strings made of a non-empty run
    of characters that are neither white space nor [@], then [@], then such
    a run, then a dot, then such a run.  [a@b.c] is accepted; [a@b] and
    [a b@c.d] are not. *)
Theorem validateEmail_spec :
  (forall email : list N,
      validateEmail email = true <->
      exists a b c, email = a ++ [64%N] ++ b ++ [46%N] ++ c
                    /\ run_of_plain a /\ run_of_plain b /\ run_of_plain c)
  /\ validateEmail (js "a@b.c") = true
  /\ validateEmail (js "a@b") = false
  /\ validateEmail (js "a b@c.d") = false.
Proof.
  split; [|by vm_compute].
  intros email. unfold validateEmail, email_pattern. rewrite RegexFacts.test_spec.
  rewrite RegexFacts.lang_cat_inv. split.
  - intros (a & s1 & -> & Ha & H1).
    apply RegexFacts.lang_cat_inv in H1 as (x & s2 & -> & Hx & H2).
    apply RegexFacts.lang_cat_inv in H2 as (b & s3 & -> & Hb & H3).
    apply RegexFacts.lang_cat_inv in H3 as (y & c & -> & Hy & Hc).
    apply RegexFacts.lang_chr in Hx as ->. apply RegexFacts.lang_chr in Hy as ->.
    exists a, b, c. by rewrite <- !run_of_plain_lang.
  - intros (a & b & c & -> & Ha & Hb & Hc). rewrite <- run_of_plain_lang in Ha, Hb, Hc.
    exists a, ([64%N] ++ b ++ [46%N] ++ c). split; [done|]. split; [done|].
    apply RegexFacts.lang_cat_inv. exists [64%N], (b ++ [46%N] ++ c).
    split; [done|]. split; [by apply RegexFacts.lang_chr|].
    apply RegexFacts.lang_cat_inv. exists b, ([46%N] ++ c).
    split; [done|]. split; [done|].
    apply RegexFacts.lang_cat_inv. exists [46%N], c.
    split; [done|]. split; [by apply RegexFacts.lang_chr | done].
Qed.

(** ** Properties of the phone rule *)

Lemma replaceAll_erase (p : N -> bool) (s : list N) :
  replaceAll (fun c => negb (p c)) [] s = filter (fun c => p c = true) s.
Proof.
  unfold replaceAll. induction s as [|c s IH]; [done|]. simpl. rewrite IH.
  destruct (p c) eqn:Hc; simpl.
  - by rewrite filter_cons_True.
  - rewrite filter_cons_False; [done | congruence].
Qed.

(** C9. [validatePhone] accepts a string exactly when at least 9 digits
    remain once every non-digit is removed; a character that is not a digit
    does not count; [123456789] is accepted, [12345678] is not, and spaces,
    dashes and parentheses make no difference. *)
Theorem validatePhone_spec :
  (forall phone : list N,
      validatePhone phone = true
      <-> (9 <= length (filter (fun c => isDigit c = true) phone))%nat)
  /\ (forall (a b : list N) (c : N),
        isDigit c = false -> validatePhone (a ++ c :: b) = validatePhone (a ++ b))
  /\ validatePhone (js "123456789") = true
  /\ validatePhone (js "12345678") = false
  /\ validatePhone (js "(12) 345-67-89") = true
  /\ validatePhone (js "(12) 345-67-8") = false.
Proof.
  split; [|split; [|by vm_compute]].
  - intros phone. unfold validatePhone. rewrite replaceAll_erase. apply Nat.leb_le.
  - intros a b c Hc. unfold validatePhone. rewrite !replaceAll_erase, !filter_app.
    rewrite filter_cons_False; [done | congruence].
Qed.

(** ** Properties of the sanitizer *)

Lemma takeWhile_dropWhile {A} (p : A -> bool) (l : list A) :
  l = takeWhile p l ++ dropWhile p l /\ Forall (fun x => p x = true) (takeWhile p l).
Proof.
  induction l as [|x l [IH1 IH2]]; simpl; [done|].
  destruct (p x) eqn:Hx; simpl; [|done].
  split; [by f_equal | by constructor].
Qed.

Lemma dropWhile_head {A} (p : A -> bool) (l : list A) (x : A) :
  head (dropWhile p l) = Some x -> p x = false.
Proof.
  induction l as [|y l IH]; simpl; [done|].
  destruct (p y) eqn:Hy; [done|]. simpl. congruence.
Qed.

(** What [trimEnd] removes is white space at the end, and what it keeps
    does not end with white space. *)
Lemma trimEnd_spec (s : list N) :
  (exists b, s = trimEnd s ++ b /\ Forall (fun c => isWhiteSpace c = true) b)
  /\ (forall c, last (trimEnd s) = Some c -> isWhiteSpace c = false).
Proof.
  unfold trimEnd. destruct (takeWhile_dropWhile isWhiteSpace (reverse s)) as [Hs Hall].
  split.
  - exists (reverse (takeWhile isWhiteSpace (reverse s))). split.
    + rewrite <- reverse_app, <- Hs. by rewrite reverse_involutive.
    + by apply Forall_reverse.
  - intros c. rewrite last_reverse. apply dropWhile_head.
Qed.

Lemma trim_spec (s : list N) :
  (exists a b, s = a ++ trim s ++ b
               /\ Forall (fun c => isWhiteSpace c = true) a
               /\ Forall (fun c => isWhiteSpace c = true) b)
  /\ (forall c, head (trim s) = Some c -> isWhiteSpace c = false)
  /\ (forall c, last (trim s) = Some c -> isWhiteSpace c = false).
Proof.
  unfold trim.
  destruct (takeWhile_dropWhile isWhiteSpace s) as [Hs Ha].
  destruct (trimEnd_spec (trimStart s)) as [(b & Hb & Hwb) Hlast].
  split; [|split; [|done]].
  - exists (takeWhile isWhiteSpace s), b. split; [|done].
    rewrite <- Hb. exact Hs.
  - intros c Hc. apply (dropWhile_head isWhiteSpace s). fold (trimStart s).
    rewrite Hb. destruct (trimEnd (trimStart s)); [done | exact Hc].
Qed.

(** C6, as the code has it.  [sanitize] trims leading and trailing white
    space and then keeps the first 2000 characters of what is left: the
    result has [min 2000 (length (trim str))] characters and does not start
    with white space.  For a string of 3000 characters the result has
    exactly 2000 characters if and only if at least 2000 characters are left
    after trimming. *)
Theorem sanitize_spec (str : list N) :
  sanitize str = take 2000 (trim str)
  /\ (exists a b, str = a ++ trim str ++ b
                  /\ Forall (fun c => isWhiteSpace c = true) a
                  /\ Forall (fun c => isWhiteSpace c = true) b)
  /\ (forall c, head (trim str) = Some c -> isWhiteSpace c = false)
  /\ (forall c, last (trim str) = Some c -> isWhiteSpace c = false)
  /\ length (sanitize str) = Nat.min 2000 (length (trim str))
  /\ (forall c, head (sanitize str) = Some c -> isWhiteSpace c = false)
  /\ (length str = 3000%nat ->
      (length (sanitize str) = 2000%nat <-> (2000 <= length (trim str))%nat)).
Proof.
  destruct (trim_spec str) as (Hsplit & Hhead & Hlast).
  assert (Hlen : length (sanitize str) = Nat.min 2000 (length (trim str))).
  { unfold sanitize, slice0. apply length_take. }
  split; [done|]. split; [done|]. split; [done|]. split; [done|]. split; [done|].
  split.
  - intros c. unfold sanitize, slice0. destruct (trim str) as [|c' t]; [done|].
    intros Hc. apply Hhead. exact Hc.
  - intros _. rewrite Hlen. lia.
Qed.

(** C6 as stated fails: 3000 spaces are sanitized to the empty string, and
    a string of 3000 characters with white space in the middle is cut to
    2000 characters that end with white space. *)
Lemma sanitize_length_counterexample :
  length (replicate 3000 32%N) = 3000%nat
  /\ length (sanitize (replicate 3000 32%N)) = 0%nat
  /\ length ([97%N] ++ replicate 2998 32%N ++ [98%N]) = 3000%nat
  /\ last (sanitize ([97%N] ++ replicate 2998 32%N ++ [98%N])) = Some 32%N.
Proof. by vm_compute. Qed.

(** ** Properties of the area rule *)

(** C7. The area rule accepts exactly the inputs that [parseFloat] reads as
    a number [x] with [20 <= x <= 2000], bounds included: [20] and [2000] are
    accepted, [19.99] and [2000.01] are rejected; the rule on a submission
    applies this to the string form of its [area] field. *)
Theorem area_rule_spec :
  (forall s : list N,
      area_rejected (parseFloat s) = false
      <-> exists x, parseFloat s = Finite x /\ (20 <= x)%Q /\ (x <= 2000)%Q)
  /\ (forall (Number_toString : number -> list N) (fields : list (list N * json)),
        rule_area Number_toString (JObj fields) = Normal []
        <-> exists s x, ToStringV Number_toString (assoc (js "area") fields) = Normal s
                        /\ parseFloat s = Finite x /\ (20 <= x)%Q /\ (x <= 2000)%Q)
  /\ area_rejected (parseFloat (js "20")) = false
  /\ area_rejected (parseFloat (js "2000")) = false
  /\ area_rejected (parseFloat (js "19.99")) = true
  /\ area_rejected (parseFloat (js "2000.01")) = true.
Proof.
  assert (H : forall n : number,
             area_rejected n = false
             <-> exists x, n = Finite x /\ (20 <= x)%Q /\ (x <= 2000)%Q).
  { intros n. unfold area_rejected, gt, lt, isNaN. destruct n as [|neg|q]; simpl.
    - split; [done | by intros (x & ? & _)].
    - destruct neg; (split; [done | by intros (x & ? & _)]).
    - destruct (Qlt_le_dec q 20) as [Hlo|Hlo], (Qlt_le_dec 2000 q) as [Hhi|Hhi]; simpl;
        split; try done;
        try (intros (x & [= <-] & H1 & H2); exfalso; eapply Qlt_not_le; eassumption).
      intros _. exists q. done. }
  split; [intros s; apply H|]. split; [|by vm_compute].
  intros nts fields. unfold rule_area. simpl.
  destruct (ToStringV nts (assoc (js "area") fields)) as [s|e]; simpl.
  - destruct (area_rejected (parseFloat s)) eqn:Hr.
    + split; [discriminate|]. intros (s' & x & [= <-] & Hx).
      assert (Hn : area_rejected (parseFloat s) = false) by (apply H; eauto).
      congruence.
    + split; [|done]. intros _. apply H in Hr as (x & Hx). eauto.
  - split; [done | by intros (s & x & ? & _)].
Qed.

(** ** Properties of validation *)

Section Validation.

Variable Number_toString : number -> list N.

Lemma assoc_submission (k : list N) (raw : list (list N * list N)) :
  assoc k (map (fun kv => (kv.1, JStr kv.2)) raw) = JStr <$> assoc k raw.
Proof.
  induction raw as [|[k' v] raw IH]; simpl; [done|].
  destruct (bool_decide (k' = k)); [done | exact IH].
Qed.

Lemma rule_buildingType_submission raw :
  rule_buildingType (submission raw)
  = Normal (when (fails_buildingType (assoc (js "buildingType") raw))
              (js "Nieprawidłowy typ budynku")).
Proof.
  unfold rule_buildingType, submission, fails_buildingType. simpl.
  rewrite assoc_submission. destruct (assoc (js "buildingType") raw) as [s|]; simpl.
  - f_equal. f_equal. rewrite orb_false_r.
    destruct (decide (js "nowy" = s)) as [<-|H1]; [done|].
    destruct (decide (js "istniejący" = s)) as [<-|H2]; [done|].
    rewrite !bool_decide_eq_false_2 by done. simpl. rewrite orb_true_r.
    rewrite bool_decide_eq_false_2; [done|]. intros [[=]|[=]]; congruence.
  - done.
Qed.

Lemma rule_area_submission raw :
  rule_area Number_toString (submission raw)
  = Normal (when (fails_area (assoc (js "area") raw)) (js "Nieprawidłowa powierzchnia")).
Proof.
  unfold rule_area, submission, fails_area. simpl. rewrite assoc_submission.
  by destruct (assoc (js "area") raw).
Qed.

Lemma rule_location_submission raw :
  rule_location (submission raw)
  = Normal (when (fails_location (assoc (js "location") raw)) (js "Brak województwa")).
Proof.
  unfold rule_location, submission, fails_location. simpl. rewrite assoc_submission.
  destruct (assoc (js "location") raw) as [[|c s]|]; done.
Qed.

Lemma rule_email_submission raw :
  rule_email Number_toString (submission raw)
  = Normal (when (fails_email (assoc (js "email") raw)) (js "Nieprawidłowy adres email")).
Proof.
  unfold rule_email, submission, fails_email. simpl. rewrite assoc_submission.
  destruct (assoc (js "email") raw) as [[|c s]|]; done.
Qed.

Lemma rule_phone_submission raw :
  rule_phone (submission raw)
  = Normal (when (fails_phone (assoc (js "phone") raw)) (js "Nieprawidłowy numer telefonu")).
Proof.
  unfold rule_phone, submission, fails_phone. simpl. rewrite assoc_submission.
  destruct (assoc (js "phone") raw) as [[|c s]|]; done.
Qed.

(** On a submission with string fields no rule throws, and validation
    returns the messages of all the rules that fail. *)
Lemma validate_submission raw :
  validate Number_toString (submission raw) = Normal (failures raw).
Proof.
  unfold validate.
  rewrite rule_buildingType_submission, rule_area_submission, rule_location_submission,
    rule_email_submission, rule_phone_submission.
  done.
Qed.

End Validation.

(** ** Properties of the handler *)

Section HandlerFacts.

Variable Number_toString : number -> list N.
Variable World : Type.
Variable emails_send : Email -> World -> bool * World.

(** A configured server that admits a request with a parsed body moves on
    to validation. *)
Lemma POST_validation env req now stampText stampHtml (σ : Server World) data :
  configured env = true ->
  (checkRateLimit (clientId req) now (rateLimitMap σ)).1 = true ->
  body req = Some data ->
  POST Number_toString emails_send env req now stampText stampHtml σ
  = match validate Number_toString data with
    | Throw e => (Throw e, afterRateCheck req now σ)
    | Normal errors =>
        if negb (isEmpty errors) then
          (Normal (respond (ErrorBody (join (js ". ") errors)) 400), afterRateCheck req now σ)
        else
          let '(r, σ') := deliver emails_send env (sanitizeAll data) stampText stampHtml
                            (afterRateCheck req now σ) in
          (Normal r, σ')
    end.
Proof.
  intros Hc Ha Hb. unfold POST, afterRateCheck. rewrite Hc. simpl negb. cbv iota.
  destruct (checkRateLimit (clientId req) now (rateLimitMap σ)) as [allowed table].
  simpl in Ha. subst allowed. simpl. rewrite Hb. done.
Qed.

(** C3. On a submission with string fields the five rules are evaluated
    independently of one another, and validation returns the message of
    every rule that fails; when there is at least one, the handler answers
    with status 400 and the messages joined by [". "], and issues no
    delivery call: the outside world and the list of calls are as before. *)
Theorem validation_collects_every_error env req now stampText stampHtml
    (σ : Server World) (raw : list (list N * list N)) :
  configured env = true ->
  (checkRateLimit (clientId req) now (rateLimitMap σ)).1 = true ->
  body req = Some (submission raw) ->
  validate Number_toString (submission raw) = Normal (failures raw)
  /\ (failures raw <> [] ->
      POST Number_toString emails_send env req now stampText stampHtml σ
      = (Normal {| status := 400;
                   contentType := js "application/json";
                   payload := ErrorBody (join (js ". ") (failures raw)) |},
         {| rateLimitMap := (checkRateLimit (clientId req) now (rateLimitMap σ)).2;
            world := world σ;
            calls := calls σ |})).
Proof.
  intros Hc Ha Hb. split; [apply validate_submission|]. intros Hne.
  rewrite (POST_validation _ _ _ _ _ _ _ Hc Ha Hb), validate_submission.
  destruct (failures raw); done.
Qed.

(** What the handler does with a validated request, by what the awaited
    calls do. *)
Lemma POST_delivery_cases env req now stampText stampHtml (σ : Server World) (data : json) :
  configured env = true ->
  (checkRateLimit (clientId req) now (rateLimitMap σ)).1 = true ->
  body req = Some data ->
  validate Number_toString data = Normal [] ->
  let table := (checkRateLimit (clientId req) now (rateLimitMap σ)).2 in
  let n := notification env (sanitizeAll data) stampText stampHtml in
  let c := confirmation env (sanitizeAll data) in
  let r1 := emails_send n (world σ) in
  let r2 := emails_send c r1.2 in
  let out := POST Number_toString emails_send env req now stampText stampHtml σ in
  out = (if r1.1
         then (Normal (if r2.1 then respond SuccessBody 200 else deliveryError),
               {| rateLimitMap := table; world := r2.2; calls := calls σ ++ [n; c] |})
         else (Normal deliveryError,
               {| rateLimitMap := table; world := r1.2; calls := calls σ ++ [n] |}))
  /\ (out.1 = Normal (respond SuccessBody 200) <-> r1.1 = true /\ r2.1 = true)
  /\ (~ (r1.1 = true /\ r2.1 = true) ->
      out.1 = Normal (respond (ErrorBody (js "Nie udało się wysłać zgłoszenia. Proszę spróbować ponownie.")) 500)).
Proof.
  intros Hc Ha Hb Hv table n c r1 r2 out.
  assert (Hout : out = (if r1.1
         then (Normal (if r2.1 then respond SuccessBody 200 else deliveryError),
               {| rateLimitMap := table; world := r2.2; calls := calls σ ++ [n; c] |})
         else (Normal deliveryError,
               {| rateLimitMap := table; world := r1.2; calls := calls σ ++ [n] |}))).
  { subst out. rewrite (POST_validation _ _ _ _ _ _ _ Hc Ha Hb), Hv. simpl negb. cbv iota.
    unfold deliver, send, afterRateCheck. simpl world. simpl calls. simpl rateLimitMap.
    fold n. fold r1. destruct r1 as [ok1 w1] eqn:E1. simpl.
    destruct ok1; simpl; [|done].
    fold c. change (emails_send c w1) with r2.
    destruct r2 as [ok2 w2] eqn:E2. simpl. rewrite <- app_assoc. simpl.
    destruct ok2; done. }
  split; [exact Hout|]. rewrite Hout. clear Hout.
  destruct (r1.1), (r2.1); simpl; (split; [split|]); try done; try (intros [? ?]; done);
    try (intros H; exfalso; apply H; done).
Qed.

(** C4 fails on a body that parses as [null]: reading [data.buildingType]
    throws outside any [try], and the exception leaves the handler. *)
Theorem POST_null_body_throws env req now stampText stampHtml (σ : Server World) :
  configured env = true ->
  (checkRateLimit (clientId req) now (rateLimitMap σ)).1 = true ->
  body req = Some JNull ->
  (POST Number_toString emails_send env req now stampText stampHtml σ).1 = Throw TypeError.
Proof.
  intros Hc Ha Hb. by rewrite (POST_validation _ _ _ _ _ _ _ Hc Ha Hb).
Qed.

End HandlerFacts.

Section Delivery.

Variable Number_toString : number -> list N.
Variable World : Type.
Variable service : Email -> World -> SendOutcome * World.


End Delivery.

(** ** Properties of the composers *)

Lemma join_elem (sep x : list N) (l : list (list N)) :
  x ∈ l -> exists before after, join sep l = before ++ x ++ after.
Proof.
  induction l as [|y l IH]; [by intros ?%elem_of_nil|].
  intros [<- | Hin]%elem_of_cons.
  - exists []. destruct l as [|z l]; simpl; [exists []; by rewrite app_nil_r | eauto].
  - destruct (IH Hin) as (b & a & Hj). destruct l as [|z l]; [by apply elem_of_nil in Hin|].
    exists (y ++ sep ++ b), a. change (join sep (y :: z :: l)) with (y ++ sep ++ join sep (z :: l)).
    rewrite Hj. by rewrite <- !app_assoc.
Qed.

(** C5 fails for the plain-text message.  [formatLeadEmail] pushes the
    heading [### Dodatkowe informacje] whatever the submission holds, so a
    submission without any optional field gets that section, empty; the
    markup message of the same submission has no such section. *)
Theorem formatLeadEmail_keeps_empty_section :
  (forall (data : gmap (list N) (list N)) (stamp : list N),
      exists before after,
        formatLeadEmail data stamp = before ++ js "### Dodatkowe informacje" ++ after)
  /\ formatLeadEmail (sanitizeAll (submission Sample.lead)) Sample.stamp
     = js "## Nowe zgłoszenie - Argentech

### Dane kontaktowe
- **Email:** jan@example.com
- **Telefon:** 600 700 800

### Informacje o budynku
- **Typ budynku:** nowy
- **Powierzchnia:** 120 m²
- **Województwo:** mazowieckie

### Dodatkowe informacje

---
Zgłoszenie z: 3.11.2026, 12:00:00"
  /\ occurs (js "Dodatkowe informacje")
       (formatLeadHtml (sanitizeAll (submission Sample.lead)) Sample.stamp) = false.
Proof.
  split; [|by vm_compute].
  intros data stamp. unfold formatLeadEmail. apply join_elem.
  repeat first
    [ solve [apply elem_of_app; right; apply elem_of_cons; left; reflexivity]
    | apply elem_of_app; left
    | match goal with |- _ ∈ (if ?c then _ else _) => destruct c end ].
Qed.

(** ** The theorems at the sample inputs *)

(** The window of the sample client: it opens at 1000, six more requests
    follow inside it, and the request at 61001 comes after it. *)
Lemma checkRateLimit_fixed_window_sample :
  let k := requests Sample.client Sample.burst in
  let m' := run (Req Sample.client 1000 :: Sample.burst) ∅ in
  checkRateLimit Sample.client 1000 ∅
  = (true, <[Sample.client := {| count := 1; timestamp := 1000 |}]> ∅)
  /\ answers Sample.client (Req Sample.client 1000 :: Sample.burst) ∅
     = replicate (Nat.min (S k) 5) true ++ replicate (S k - 5) false
  /\ m' !! Sample.client = Some {| count := Z.min (Z.of_nat (S k)) 5; timestamp := 1000 |}
  /\ (forall now m1 r, m1 !! Sample.client = Some r -> now - timestamp r <= 60000 ->
        count r < 5 ->
        checkRateLimit Sample.client now m1
        = (true, <[Sample.client := {| count := count r + 1; timestamp := timestamp r |}]> m1))
  /\ (forall now m1, (checkRateLimit Sample.client now m1).1 = false ->
        (checkRateLimit Sample.client now m1).2 = m1)
  /\ checkRateLimit Sample.client 61001 m'
     = (true, <[Sample.client := {| count := 1; timestamp := 61001 |}]> m').
Proof.
  apply (checkRateLimit_fixed_window Sample.client 1000 61001 Sample.burst ∅).
  - left. reflexivity.
  - unfold Sample.burst. repeat constructor; simpl; intros; unfold RATE_LIMIT_WINDOW; lia.
  - lia.
Defined.

(** The record of the sample client after its burst. *)
Lemma rateLimitMap_count_bounds_sample :
  1 <= count {| count := 5; timestamp := 1000 |} <= 5.
Proof.
  apply (rateLimitMap_count_bounds (Req Sample.client 1000 :: Sample.burst) Sample.client).
  vm_compute. reflexivity.
Defined.

(** The sample submission with a wrong building type and a short phone
    number. *)
Lemma validation_collects_every_error_sample :
  validate Sample.printNumber (submission Sample.badLead)
  = Normal (failures Sample.badLead)
  /\ (failures Sample.badLead <> [] ->
      POST Sample.printNumber Sample.scripted Sample.env
        (Sample.request (Some (submission Sample.badLead))) 1000 Sample.stamp Sample.stamp
        (Sample.server [])
      = (Normal {| status := 400;
                   contentType := js "application/json";
                   payload := ErrorBody (join (js ". ") (failures Sample.badLead)) |},
         {| rateLimitMap :=
              (checkRateLimit (clientId (Sample.request (Some (submission Sample.badLead))))
                 1000 (rateLimitMap (Sample.server []))).2;
            world := world (Sample.server []);
            calls := calls (Sample.server []) |})).
Proof.
  apply (validation_collects_every_error Sample.printNumber (list bool) Sample.scripted
           Sample.env (Sample.request (Some (submission Sample.badLead))) 1000
           Sample.stamp Sample.stamp (Sample.server []) Sample.badLead).
  - reflexivity.
  - vm_compute. reflexivity.
  - reflexivity.
Defined.



(** The body [null] on the sample server. *)
Lemma POST_null_body_throws_sample :
  (POST Sample.printNumber Sample.scripted Sample.env (Sample.request (Some JNull)) 1000
     Sample.stamp Sample.stamp (Sample.server [])).1 = Throw TypeError.
Proof.
  apply (POST_null_body_throws Sample.printNumber (list bool) Sample.scripted Sample.env
           (Sample.request (Some JNull)) 1000 Sample.stamp Sample.stamp (Sample.server [])).
  - reflexivity.
  - vm_compute. reflexivity.
  - reflexivity.
Defined.

(** 3000 letters are cut to 2000. *)
Lemma sanitize_spec_sample :
  length (sanitize (replicate 3000 97%N)) = 2000%nat.
Proof.
  destruct (sanitize_spec (replicate 3000 97%N)) as (_ & _ & _ & _ & _ & _ & H).
  apply H; vm_compute; [reflexivity | lia].
Defined.

(** ** Further properties of the rate limiter *)

Section RateLimiterMore.

Implicit Types (m : gmap (list N) RateRecord) (ip : list N) (r : RateRecord).

(** The answer to a request and the record it leaves depend on the record
    of the client only. *)
Lemma checkRateLimit_local ip now m1 m2 :
  m1 !! ip = m2 !! ip ->
  (checkRateLimit ip now m1).1 = (checkRateLimit ip now m2).1
  /\ (checkRateLimit ip now m1).2 !! ip = (checkRateLimit ip now m2).2 !! ip.
Proof.
  intros H. unfold checkRateLimit. rewrite <- H. destruct (m1 !! ip) as [r|] eqn:E; simpl.
  - destruct (_ >? _); simpl; [by rewrite !lookup_insert_eq|].
    destruct (_ >=? _); simpl; [by rewrite <- H | by rewrite !lookup_insert_eq].
  - by rewrite !lookup_insert_eq.
Qed.

Lemma sweep_local ip now m1 m2 :
  m1 !! ip = m2 !! ip -> sweep now m1 !! ip = sweep now m2 !! ip.
Proof. intros H. unfold sweep. by rewrite !map_lookup_filter, H. Qed.

Lemma apply_local ip e m1 m2 :
  m1 !! ip = m2 !! ip -> apply e m1 !! ip = apply e m2 !! ip.
Proof.
  intros H. destruct e as [ip' now | now]; simpl; [|by apply sweep_local].
  destruct (decide (ip' = ip)) as [-> | Hne].
  - by apply checkRateLimit_local.
  - by rewrite !checkRateLimit_other.
Qed.

Lemma apply_other ip ip' now m : ip' <> ip -> apply (Req ip' now) m !! ip = m !! ip.
Proof. intros H. simpl. by apply checkRateLimit_other. Qed.

Lemma answers_local ip es : forall m1 m2,
  m1 !! ip = m2 !! ip -> answers ip es m1 = answers ip (ownEvents ip es) m2.
Proof.
  induction es as [|e es IH]; intros m1 m2 H; [done|].
  destruct e as [ip' now | now]; simpl.
  - destruct (bool_decide_reflect (ip' = ip)) as [-> | Hne].
    + simpl. rewrite bool_decide_eq_true_2 by done.
      destruct (checkRateLimit_local ip now m1 m2 H) as [-> Hl]. f_equal. by apply IH.
    + apply IH. by rewrite checkRateLimit_other.
  - apply IH. by apply sweep_local.
Qed.

End RateLimiterMore.

(** X1. Clients are isolated from one another: the answers a client gets in
    a run are those it would get if no other client made any request. *)
Theorem answers_isolated (ip : list N) (es : list event) (m : gmap (list N) RateRecord) :
  answers ip es m = answers ip (ownEvents ip es) m.
Proof. by apply answers_local. Qed.

Section SweepFacts.

Implicit Types (m : gmap (list N) RateRecord) (ip : list N) (r : RateRecord).

(** From time [s] on, a table in which an expired record of [ip] has been
    deleted behaves for [ip] like the table that still has it. *)
Lemma lag_step ip s e m1 m2 :
  s <= time_of e ->
  (m1 !! ip = m2 !! ip
   \/ (m1 !! ip = None /\ exists r, m2 !! ip = Some r /\ s - timestamp r > RATE_LIMIT_WINDOW)) ->
  (forall now, e = Req ip now -> (checkRateLimit ip now m1).1 = (checkRateLimit ip now m2).1)
  /\ (apply e m1 !! ip = apply e m2 !! ip
      \/ (apply e m1 !! ip = None
          /\ exists r, apply e m2 !! ip = Some r /\ s - timestamp r > RATE_LIMIT_WINDOW)).
Proof.
  intros Ht [Heq | (Hn & r & Hr & Hexp)].
  - split.
    + intros now _. by apply checkRateLimit_local.
    + left. by apply apply_local.
  - destruct e as [ip' now | now]; simpl in Ht.
    + destruct (decide (ip' = ip)) as [-> | Hne].
      * assert (H1 := checkRateLimit_new ip now m1 Hn).
        assert (H2 : checkRateLimit ip now m2
                     = (true, <[ip := {| count := 1; timestamp := now |}]> m2)).
        { apply (checkRateLimit_expired _ _ _ r Hr). lia. }
        split.
        -- intros now' [= <-]. by rewrite H1, H2.
        -- left. simpl. rewrite H1, H2. simpl. by rewrite !lookup_insert_eq.
      * split; [intros now' [= ?]; congruence|].
        right. rewrite !apply_other by done. eauto.
    + split; [done|]. left. simpl.
      transitivity (@None RateRecord).
      * apply map_lookup_filter_None. by left.
      * symmetry. apply map_lookup_filter_None. right. intros r' Hr'. simpl.
        assert (r' = r) by congruence. subst r'. lia.
Qed.

Lemma answers_lag ip s es : forall m1 m2,
  Forall (fun e => s <= time_of e) es ->
  (m1 !! ip = m2 !! ip
   \/ (m1 !! ip = None /\ exists r, m2 !! ip = Some r /\ s - timestamp r > RATE_LIMIT_WINDOW)) ->
  answers ip es m1 = answers ip es m2.
Proof.
  induction es as [|e es IH]; intros m1 m2 Hall Hlag; [done|].
  apply Forall_cons in Hall as [Ht Hall].
  destruct (lag_step ip s e m1 m2 Ht Hlag) as [Hans Hnext].
  destruct e as [ip' now | now]; simpl.
  - destruct (bool_decide_reflect (ip' = ip)) as [-> | Hne].
    + rewrite (Hans now eq_refl). f_equal. by apply IH.
    + by apply IH.
  - by apply IH.
Qed.

End SweepFacts.

(** X2. The clean-up is invisible to the clients: when the clock does not
    go back, running it at time [s] changes none of the answers given from
    then on. *)
Theorem sweep_transparent (s : Z) (ip : list N) (es : list event)
    (m : gmap (list N) RateRecord) :
  Forall (fun e => s <= time_of e) es ->
  answers ip es (sweep s m) = answers ip es m.
Proof.
  intros Hall. apply (answers_lag ip s); [done|].
  destruct (m !! ip) as [r|] eqn:Hr.
  - destruct (Z_le_gt_dec (s - timestamp r) RATE_LIMIT_WINDOW) as [Hin | Hexp].
    + left. apply sweep_lookup. done.
    + right. split; [|eauto]. apply map_lookup_filter_None. right.
      intros r' Hr'. simpl. assert (r' = r) by congruence. subst r'. lia.
  - left. apply map_lookup_filter_None. by left.
Qed.

(** X3. The table holds records of clients that made a request, and of no
    one else. *)
Theorem rateLimitMap_keys (es : list event) (m : gmap (list N) RateRecord) :
  dom (run es m) ⊆ dom m ∪ clients es.
Proof.
  revert m. induction es as [|e es IH]; intros m k Hk; simpl in *.
  - apply elem_of_union. by left.
  - apply IH, elem_of_union in Hk as [Hk | Hk].
    + apply elem_of_dom in Hk as [r Hr]. destruct e as [ip now | now]; simpl in Hr.
      * destruct (decide (ip = k)) as [-> | Hne].
        -- apply elem_of_union. right. apply elem_of_union. left. by apply elem_of_singleton.
        -- rewrite checkRateLimit_other in Hr by done.
           apply elem_of_union. left. apply elem_of_dom. eauto.
      * apply sweep_lookup in Hr as [Hr _]. apply elem_of_union. left. apply elem_of_dom. eauto.
    + apply elem_of_union. right. destruct e; [apply elem_of_union; by right | done].
Qed.

Lemma sweep_transparent_sample :
  answers Sample.client SampleMore.later (sweep 70000 SampleMore.table)
  = answers Sample.client SampleMore.later SampleMore.table.
Proof.
  apply sweep_transparent. unfold SampleMore.later. repeat constructor; simpl; lia.
Defined.

(** ** Further properties of the handler *)

Section HandlerMore.

Variable Number_toString : number -> list N.
Variable World : Type.
Variable emails_send : Email -> World -> bool * World.

Lemma Server_eta (σ : Server World) :
  {| rateLimitMap := rateLimitMap σ; world := world σ; calls := calls σ |} = σ.
Proof. by destruct σ. Qed.

(** What the [try] block does to the server, whatever the sends answer. *)
Lemma deliver_effects env sanitizedData stampText stampHtml (σ : Server World) :
  let out := deliver emails_send env sanitizedData stampText stampHtml σ in
  rateLimitMap out.2 = rateLimitMap σ
  /\ (exists extra, calls out.2 = calls σ ++ extra /\ (1 <= length extra <= 2)%nat)
  /\ (status out.1 = 200 \/ status out.1 = 500)
  /\ contentType out.1 = js "application/json".
Proof.
  unfold deliver, send. simpl.
  destruct (emails_send _ (world σ)) as [ok1 w1]. destruct ok1; simpl.
  - destruct (emails_send _ w1) as [ok2 w2]. destruct ok2; simpl.
    + split; [done|]. split; [|by auto]. rewrite <- app_assoc. eexists. split; [done|]. simpl. lia.
    + split; [done|]. split; [|by auto]. rewrite <- app_assoc. eexists. split; [done|]. simpl. lia.
  - split; [done|]. split; [|by auto]. eexists. split; [done|]. simpl. lia.
Qed.

(** X4. A request the rate limiter rejects is answered with status 429
    whatever its body, and leaves the server exactly as it was: the table,
    the outside world and the list of delivery calls. *)
Theorem POST_rate_limited env req now stampText stampHtml (σ : Server World) :
  configured env = true ->
  (checkRateLimit (clientId req) now (rateLimitMap σ)).1 = false ->
  POST Number_toString emails_send env req now stampText stampHtml σ
  = (Normal {| status := 429;
               contentType := js "application/json";
               payload := ErrorBody (js "Zbyt wiele zgłoszeń. Proszę spróbować za chwilę.") |},
     σ).
Proof.
  intros Hc Hr. unfold POST. rewrite Hc. simpl negb. cbv iota.
  pose proof (checkRateLimit_rejected _ _ _ Hr) as Ht.
  destruct (checkRateLimit (clientId req) now (rateLimitMap σ)) as [allowed table].
  simpl in Hr, Ht. subst allowed table. simpl. by rewrite Server_eta.
Qed.

(** X5. Every request to a configured server is counted by the rate
    limiter, whatever becomes of it afterwards (a parse error, a validation
    error, an exception, a delivery failure); a server that is not
    configured does not touch the table. *)
Theorem POST_rateLimitMap env req now stampText stampHtml (σ : Server World) :
  rateLimitMap (POST Number_toString emails_send env req now stampText stampHtml σ).2
  = if configured env
    then (checkRateLimit (clientId req) now (rateLimitMap σ)).2
    else rateLimitMap σ.
Proof.
  unfold POST. destruct (configured env); [|done]. simpl negb. cbv iota.
  destruct (checkRateLimit (clientId req) now (rateLimitMap σ)) as [allowed table].
  destruct allowed; [|done]. simpl negb. cbv iota.
  destruct (body req) as [data|]; [|done].
  destruct (validate Number_toString data) as [errors|e]; [|done].
  destruct errors; [|done]. simpl negb. cbv iota.
  match goal with |- context [deliver ?s ?e ?d ?a ?b ?x] =>
    pose proof (deliver_effects e d a b x) as (Ht & _); destruct (deliver s e d a b x) end.
  simpl in *. exact Ht.
Qed.

(** X6. The handler issues a delivery call only for a request that a
    configured server admitted, parsed and validated without any error, and
    then one or two of them; in every other case the outside world and the
    list of calls are left as they were. *)
Theorem POST_delivers_only_valid env req now stampText stampHtml (σ : Server World) :
  let out := POST Number_toString emails_send env req now stampText stampHtml σ in
  (world out.2 = world σ /\ calls out.2 = calls σ)
  \/ (configured env = true
      /\ (checkRateLimit (clientId req) now (rateLimitMap σ)).1 = true
      /\ (exists data, body req = Some data /\ validate Number_toString data = Normal [])
      /\ exists extra, calls out.2 = calls σ ++ extra /\ (1 <= length extra <= 2)%nat).
Proof.
  unfold POST. destruct (configured env); [|by left]. simpl negb. cbv iota.
  destruct (checkRateLimit (clientId req) now (rateLimitMap σ)) as [allowed table].
  destruct allowed; [|by left]. simpl negb. cbv iota.
  destruct (body req) as [data|]; [|by left].
  destruct (validate Number_toString data) as [errors|e] eqn:Hv; [|by left].
  destruct errors; [|by left]. simpl negb. cbv iota.
  right. split; [done|]. split; [done|]. split; [eauto|].
  match goal with |- context [deliver ?s ?e ?d ?a ?b ?x] =>
    pose proof (deliver_effects e d a b x) as (_ & Hx & _); destruct (deliver s e d a b x) end.
  simpl in *. exact Hx.
Qed.

(** The outcomes of the handler. *)
Lemma POST_outcome_cases env req now stampText stampHtml (σ : Server World) :
  match (POST Number_toString emails_send env req now stampText stampHtml σ).1 with
  | Normal r =>
      (status r = 200 \/ status r = 400 \/ status r = 429 \/ status r = 500)
      /\ contentType r = js "application/json"
  | Throw e =>
      configured env = true
      /\ (checkRateLimit (clientId req) now (rateLimitMap σ)).1 = true
      /\ exists data, body req = Some data /\ validate Number_toString data = Throw e
  end.
Proof.
  unfold POST. destruct (configured env); [|by simpl; naive_solver]. simpl negb. cbv iota.
  destruct (checkRateLimit (clientId req) now (rateLimitMap σ)) as [allowed table].
  destruct allowed; [|by simpl; naive_solver]. simpl negb. cbv iota.
  destruct (body req) as [data|]; [|by simpl; naive_solver].
  destruct (validate Number_toString data) as [errors|e] eqn:Hv; [|by simpl; eauto].
  destruct errors; [|by simpl; naive_solver]. simpl negb. cbv iota.
  match goal with |- context [deliver ?s ?e ?d ?a ?b ?x] =>
    pose proof (deliver_effects e d a b x) as (_ & _ & Hs & Hc); destruct (deliver s e d a b x) end.
  simpl in *. split; [|done]. destruct Hs; auto.
Qed.

(** X7. Whenever the handler returns, the response is JSON with status 200,
    400, 429 or 500; an exception leaves the handler only when a configured
    server admitted the request and the validation of its parsed body
    threw. *)
Theorem POST_outcomes env req now stampText stampHtml (σ : Server World) :
  match (POST Number_toString emails_send env req now stampText stampHtml σ).1 with
  | Normal r =>
      (status r = 200 \/ status r = 400 \/ status r = 429 \/ status r = 500)
      /\ contentType r = js "application/json"
  | Throw e =>
      configured env = true
      /\ (checkRateLimit (clientId req) now (rateLimitMap σ)).1 = true
      /\ exists data, body req = Some data /\ validate Number_toString data = Throw e
  end.
Proof. apply POST_outcome_cases. Qed.

(** X8. A body that parses to a boolean, a number, a string or an array is
    answered with status 400 and all five validation messages. *)
Theorem POST_non_object_body env req now stampText stampHtml (σ : Server World) data :
  configured env = true ->
  (checkRateLimit (clientId req) now (rateLimitMap σ)).1 = true ->
  body req = Some data ->
  nonObject data = true ->
  POST Number_toString emails_send env req now stampText stampHtml σ
  = (Normal {| status := 400;
               contentType := js "application/json";
               payload := ErrorBody everyMessage |},
     afterRateCheck req now σ).
Proof.
  intros Hc Ha Hb Hn. rewrite (POST_validation _ _ _ _ _ _ _ _ _ _ Hc Ha Hb).
  assert (Hv : validate Number_toString data
               = Normal [js "Nieprawidłowy typ budynku"; js "Nieprawidłowa powierzchnia";
                         js "Brak województwa"; js "Nieprawidłowy adres email";
                         js "Nieprawidłowy numer telefonu"]).
  { destruct data; try discriminate; reflexivity. }
  rewrite Hv. simpl negb. cbv iota.
  assert (Hj : join (js ". ")
                 [js "Nieprawidłowy typ budynku"; js "Nieprawidłowa powierzchnia";
                  js "Brak województwa"; js "Nieprawidłowy adres email";
                  js "Nieprawidłowy numer telefonu"] = everyMessage) by (by vm_compute).
  by rewrite Hj.
Qed.

(** X9. On a body whose fields are all strings the handler never throws:
    it returns a response. *)
Theorem POST_string_fields_return env req now stampText stampHtml (σ : Server World)
    (raw : list (list N * list N)) :
  body req = Some (submission raw) ->
  exists r, (POST Number_toString emails_send env req now stampText stampHtml σ).1 = Normal r.
Proof.
  intros Hb.
  pose proof (POST_outcome_cases env req now stampText stampHtml σ) as H.
  destruct (POST _ _ _ _ _ _ _ _).1 as [r|e]; [eauto|].
  destruct H as (_ & _ & data & Hd & Hv). rewrite Hb in Hd. injection Hd as <-.
  by rewrite validate_submission in Hv.
Qed.

End HandlerMore.

(** ** Further properties of the sanitizer *)

Lemma dropWhile_id {A} (p : A -> bool) (l : list A) :
  (forall x, head l = Some x -> p x = false) -> dropWhile p l = l.
Proof.
  destruct l as [|x l]; [done|]. intros H. simpl. by rewrite (H x eq_refl).
Qed.

Lemma dropWhile_all {A} (p : A -> bool) (l : list A) :
  Forall (fun x => p x = true) l -> dropWhile p l = [].
Proof. induction 1 as [|x l Hx _ IH]; [done|]. simpl. by rewrite Hx. Qed.

(** A string that neither starts nor ends with white space is its own
    trimmed form. *)
Lemma trim_id (s : list N) :
  (forall c, head s = Some c -> isWhiteSpace c = false) ->
  (forall c, last s = Some c -> isWhiteSpace c = false) ->
  trim s = s.
Proof.
  intros Hh Hl. unfold trim, trimStart, trimEnd. rewrite (dropWhile_id _ s Hh).
  rewrite dropWhile_id; [apply reverse_involutive|].
  intros c. rewrite head_reverse. apply Hl.
Qed.

Lemma trim_nil (s : list N) :
  trim s = [] <-> Forall (fun c => isWhiteSpace c = true) s.
Proof.
  split.
  - intros H. destruct (trim_spec s) as [(a & b & Hs & Ha & Hb) _].
    rewrite H in Hs. rewrite Hs. simpl. by apply Forall_app.
  - intros H. unfold trim, trimStart. by rewrite (dropWhile_all _ _ H).
Qed.

(** X10. What [sanitize] returns is a piece of its argument; it is empty
    exactly when the argument is white space only; and a string of at most
    2000 characters that neither starts nor ends with white space is
    returned unchanged. *)
Theorem sanitize_piece (str : list N) :
  (exists a b, str = a ++ sanitize str ++ b)
  /\ (sanitize str = [] <-> Forall (fun c => isWhiteSpace c = true) str)
  /\ ((forall c, head str = Some c -> isWhiteSpace c = false) ->
      (forall c, last str = Some c -> isWhiteSpace c = false) ->
      (length str <= 2000)%nat ->
      sanitize str = str).
Proof.
  unfold sanitize, slice0. split; [|split].
  - destruct (trim_spec str) as [(a & b & Hs & _) _].
    exists a, (drop 2000 (trim str) ++ b).
    rewrite (app_assoc (take 2000 (trim str))), take_drop. exact Hs.
  - rewrite <- trim_nil. destruct (trim str); [done|]. split; discriminate.
  - intros Hh Hl Hlen. rewrite (trim_id _ Hh Hl). by apply take_ge.
Qed.

(** ** Properties of the sanitizing loop *)

Section SanitizeAll.

(** One turn of the loop. *)
Local Abbreviation turn :=
  (fun (sanitizedData : gmap (list N) (list N)) (kv : list N * json) =>
     match kv.2 with
     | JStr s =>
         if bool_decide (kv.1 = js "__proto__") then sanitizedData
         else <[kv.1 := sanitize s]> sanitizedData
     | _ => sanitizedData
     end).

Lemma sanitize_length (s : list N) : (length (sanitize s) <= 2000)%nat.
Proof. unfold sanitize, slice0. rewrite length_take. lia. Qed.

Lemma loop_bounded (all : list (list N * json)) : forall l acc,
  l ⊆ all ->
  map_Forall (fun k v => (length v <= 2000)%nat
                         /\ exists s, (k, JStr s) ∈ all /\ v = sanitize s) acc ->
  map_Forall (fun k v => (length v <= 2000)%nat
                         /\ exists s, (k, JStr s) ∈ all /\ v = sanitize s)
    (foldl turn acc l).
Proof.
  induction l as [|[k x] l IH]; intros acc Hsub Hacc; [done|]. simpl.
  apply IH; [set_solver|]. simpl. destruct x; try done.
  case_bool_decide; [done|]. apply map_Forall_insert_2; [|done].
  split; [apply sanitize_length|]. exists s. split; [|done]. apply Hsub. by left.
Qed.

Lemma assoc_fresh {A} (k : list N) (l : list (list N * A)) :
  k ∉ l.*1 -> assoc k l = None.
Proof.
  induction l as [|[k1 v1] l IH]; [done|]. simpl.
  intros [Hne Hk]%not_elem_of_cons. rewrite bool_decide_eq_false_2 by done. by apply IH.
Qed.

Lemma loop_lookup (k : list N) : forall (fields : list (list N * json)) acc,
  NoDup fields.*1 ->
  foldl turn acc fields !! k
  = match assoc k fields with
    | Some (JStr s) => if bool_decide (k = js "__proto__") then acc !! k else Some (sanitize s)
    | _ => acc !! k
    end.
Proof.
  induction fields as [|[k0 v0] fields IH]; intros acc Hnd; [done|].
  apply NoDup_cons in Hnd as [Hk0 Hnd]. simpl. rewrite (IH _ Hnd).
  destruct (bool_decide_reflect (k0 = k)) as [-> | Hne].
  - rewrite (assoc_fresh k fields Hk0). destruct v0; try done.
    destruct (bool_decide (k = js "__proto__")); [done | by rewrite lookup_insert_eq].
  - assert (Hacc : (match v0 with
                    | JStr s =>
                        if bool_decide (k0 = js "__proto__") then acc
                        else <[k0 := sanitize s]> acc
                    | _ => acc
                    end) !! k = acc !! k).
    { destruct v0; try done.
      destruct (bool_decide (k0 = js "__proto__")); [done | by rewrite lookup_insert_ne]. }
    by rewrite Hacc.
Qed.

End SanitizeAll.

(** X11. Whatever the body, every value of the sanitized data is the
    sanitized form of a string field of the body under the same name, and
    has at most 2000 characters. *)
Theorem sanitizeAll_bounded (data : json) :
  map_Forall (fun k v => (length v <= 2000)%nat
                         /\ exists s, (k, JStr s) ∈ entries data /\ v = sanitize s)
    (sanitizeAll data).
Proof. unfold sanitizeAll. apply loop_bounded; [done | apply map_Forall_empty]. Qed.

(** The sanitized data of an object. *)
Lemma sanitizeAll_fields (fields : list (list N * json)) (k : list N) :
  NoDup fields.*1 ->
  sanitizeAll (JObj fields) !! k
  = match assoc k fields with
    | Some (JStr s) => if bool_decide (k = js "__proto__") then None else Some (sanitize s)
    | _ => None
    end.
Proof.
  intros Hnd. unfold sanitizeAll. simpl entries. rewrite (loop_lookup k fields ∅ Hnd).
  rewrite lookup_empty. by destruct (assoc k fields) as [[]|].
Qed.

(** The sanitized data of a submission with string fields. *)
Lemma sanitizeAll_string_fields (raw : list (list N * list N)) (k : list N) :
  NoDup raw.*1 ->
  sanitizeAll (submission raw) !! k
  = if bool_decide (k = js "__proto__") then None else sanitize <$> assoc k raw.
Proof.
  intros Hnd. unfold submission. rewrite sanitizeAll_fields.
  - rewrite assoc_submission. destruct (assoc k raw); simpl; [done | by case_bool_decide].
  - by rewrite <- list_fmap_compose.
Qed.

(** X12. On an object whose properties have names of their own, the
    sanitized data hold the sanitized value of every string property,
    except one named [__proto__], and nothing else: a property whose value
    is not a string is left out. *)
Theorem sanitizeAll_object (fields : list (list N * json)) (k : list N) :
  NoDup fields.*1 ->
  sanitizeAll (JObj fields) !! k
  = match assoc k fields with
    | Some (JStr s) => if bool_decide (k = js "__proto__") then None else Some (sanitize s)
    | _ => None
    end.
Proof. apply sanitizeAll_fields. Qed.

(** ** Validation and sanitizing together *)

Lemma validateEmail_parts (email : list N) :
  validateEmail email = true ->
  exists a b c, email = a ++ [64%N] ++ b ++ [46%N] ++ c
                /\ run_of_plain a /\ run_of_plain b /\ run_of_plain c.
Proof.
  unfold validateEmail, email_pattern. rewrite RegexFacts.test_spec.
  intros (a & s1 & -> & Ha & H1)%RegexFacts.lang_cat_inv.
  apply RegexFacts.lang_cat_inv in H1 as (x & s2 & -> & Hx & H2).
  apply RegexFacts.lang_cat_inv in H2 as (b & s3 & -> & Hb & H3).
  apply RegexFacts.lang_cat_inv in H3 as (y & c & -> & Hy & Hc).
  apply RegexFacts.lang_chr in Hx as ->. apply RegexFacts.lang_chr in Hy as ->.
  exists a, b, c. by rewrite <- !run_of_plain_lang.
Qed.

Lemma run_of_plain_facts (s : list N) :
  run_of_plain s ->
  (1 <= length s)%nat
  /\ filter (fun x => x = 64%N) s = []
  /\ Forall (fun c => isWhiteSpace c = false) s.
Proof.
  intros [Hne Hall]. split; [destruct s; [done | simpl; lia]|]. split.
  - clear Hne. induction Hall as [|c s [_ Hc] _ IH]; [done|].
    by rewrite filter_cons_False.
  - eapply Forall_impl; [exact Hall|]. by intros c [? _].
Qed.

(** X13. An accepted email has exactly one [@], no white space, and at
    least five characters. *)
Theorem validateEmail_accepts_only (email : list N) :
  validateEmail email = true ->
  countOf 64 email = 1%nat
  /\ Forall (fun c => isWhiteSpace c = false) email
  /\ (5 <= length email)%nat.
Proof.
  intros (a & b & c & -> & Ha & Hb & Hc)%validateEmail_parts.
  apply run_of_plain_facts in Ha as (La & Fa & Wa).
  apply run_of_plain_facts in Hb as (Lb & Fb & Wb).
  apply run_of_plain_facts in Hc as (Lc & Fc & Wc).
  unfold countOf. split; [|split].
  - rewrite !filter_app, Fa, Fb, Fc. done.
  - repeat (apply Forall_app; split); try done; by repeat constructor.
  - rewrite !length_app. simpl. lia.
Qed.

Lemma digit_not_space (c : N) : isWhiteSpace c = true -> isDigit c = false.
Proof.
  intros Hw. destruct (isDigit c) eqn:Hd; [|done]. exfalso.
  unfold isDigit in Hd. apply andb_true_iff in Hd as [H1%N.leb_le H2%N.leb_le].
  assert (Hc : (c = 48 \/ c = 49 \/ c = 50 \/ c = 51 \/ c = 52 \/ c = 53 \/ c = 54
                \/ c = 55 \/ c = 56 \/ c = 57)%N) by lia.
  repeat destruct Hc as [-> | Hc]; try subst c; by vm_compute in Hw.
Qed.

Lemma filter_digits_space (l : list N) :
  Forall (fun c => isWhiteSpace c = true) l -> filter (fun c => isDigit c = true) l = [].
Proof.
  induction 1 as [|c l Hc _ IH]; [done|].
  rewrite filter_cons_False; [done|]. rewrite (digit_not_space c Hc). discriminate.
Qed.

Lemma sanitize_short (s : list N) : (length s <= 2000)%nat -> sanitize s = trim s.
Proof.
  intros H. unfold sanitize, slice0. apply take_ge.
  destruct (trim_spec s) as [(a & b & Hs & _) _].
  rewrite Hs in H. rewrite !length_app in H. lia.
Qed.

Lemma sanitize_email (s : list N) :
  validateEmail s = true -> (length s <= 2000)%nat -> sanitize s = s.
Proof.
  intros (a & b & c & -> & Ha & Hb & Hc)%validateEmail_parts Hlen.
  rewrite sanitize_short by done.
  apply run_of_plain_facts in Ha as (La & _ & Wa).
  apply run_of_plain_facts in Hc as (Lc & _ & Wc).
  apply trim_id.
  - destruct a as [|x a]; [simpl in La; lia|]. simpl. intros ? [= <-].
    by apply Forall_cons in Wa as [? _].
  - intros x. rewrite !app_assoc, last_app.
    destruct (last c) as [y|] eqn:Hl.
    + intros [= <-]. apply last_Some in Hl as [c' ->].
      apply Forall_app in Wc as [_ Wc]. by apply Forall_cons in Wc as [? _].
    + apply last_None in Hl. subst c. simpl in Lc. lia.
Qed.

Lemma sanitize_phone (s : list N) :
  validatePhone s = true -> (length s <= 2000)%nat -> validatePhone (sanitize s) = true.
Proof.
  intros Hv Hlen. rewrite sanitize_short by done.
  destruct (trim_spec s) as [(a & b & Hs & Ha & Hb) _].
  unfold validatePhone in *. rewrite replaceAll_erase in *.
  rewrite Hs, !filter_app, (filter_digits_space a Ha), (filter_digits_space b Hb) in Hv.
  by rewrite app_nil_r in Hv.
Qed.

Lemma assoc_elem {A} (k : list N) (l : list (list N * A)) (v : A) :
  assoc k l = Some v -> (k, v) ∈ l.
Proof.
  induction l as [|[k' v'] l IH]; [done|]. simpl. case_bool_decide as Hk.
  - intros [= <-]. subst k'. by left.
  - intros H. right. by apply IH.
Qed.

Lemma when_nil (b : bool) (msg : list N) : when b msg = [] -> b = false.
Proof. by destruct b. Qed.

(** X14. Sanitizing does not undo validation.  On a submission that passes
    validation, with each field under a name of its own and no field longer
    than 2000 characters, the sanitized data hold the building type and the
    email address exactly as submitted, a phone number that still passes
    the phone rule and a location that is not empty; so the confirmation is
    addressed to the email address as submitted. *)
Theorem sanitize_keeps_valid (env : Env) (raw : list (list N * list N)) :
  NoDup raw.*1 ->
  failures raw = [] ->
  (forall k v, (k, v) ∈ raw -> (length v <= 2000)%nat) ->
  let d := sanitizeAll (submission raw) in
  (d !! js "buildingType" = Some (js "nowy") \/ d !! js "buildingType" = Some (js "istniejący"))
  /\ d !! js "buildingType" = assoc (js "buildingType") raw
  /\ (exists e, assoc (js "email") raw = Some e /\ d !! js "email" = Some e
                 /\ validateEmail e = true /\ to (confirmation env d) = Some e)
  /\ (exists p, d !! js "phone" = Some p /\ validatePhone p = true)
  /\ (exists l, d !! js "location" = Some l /\ l <> []).
Proof.
  intros Hnd Hf Hlen d. unfold failures in Hf.
  apply app_eq_nil in Hf as [Hbt%when_nil Hf].
  apply app_eq_nil in Hf as [_ Hf].
  apply app_eq_nil in Hf as [Hloc%when_nil Hf].
  apply app_eq_nil in Hf as [Hem%when_nil Hph%when_nil].
  assert (Hd : forall k, bool_decide (k = js "__proto__") = false ->
                         d !! k = sanitize <$> assoc k raw).
  { intros k Hk. subst d. by rewrite sanitizeAll_string_fields, Hk. }
  assert (Hb : d !! js "buildingType" = assoc (js "buildingType") raw
               /\ (assoc (js "buildingType") raw = Some (js "nowy")
                   \/ assoc (js "buildingType") raw = Some (js "istniejący"))).
  { rewrite Hd by (by vm_compute). unfold fails_buildingType in Hbt.
    apply negb_false_iff, bool_decide_eq_true in Hbt. split; [|done].
    destruct Hbt as [-> | ->]; simpl; f_equal; by vm_compute. }
  destruct Hb as [Hb1 Hb2].
  split; [by rewrite Hb1|]. split; [done|]. split; [|split].
  - unfold fails_email in Hem. apply negb_false_iff in Hem.
    destruct (assoc (js "email") raw) as [e|] eqn:He; [|by vm_compute in Hem].
    simpl in Hem. exists e.
    assert (Hde : d !! js "email" = Some e).
    { rewrite Hd by (by vm_compute). rewrite He. simpl. f_equal.
      apply sanitize_email; [done|]. apply (Hlen (js "email")). by apply assoc_elem. }
    done.
  - unfold fails_phone in Hph. apply negb_false_iff in Hph.
    destruct (assoc (js "phone") raw) as [p|] eqn:Hp; [|by vm_compute in Hph].
    simpl in Hph. exists (sanitize p). split.
    + rewrite Hd by (by vm_compute). by rewrite Hp.
    + apply sanitize_phone; [done|]. apply (Hlen (js "phone")). by apply assoc_elem.
  - unfold fails_location in Hloc.
    destruct (assoc (js "location") raw) as [l|] eqn:Hl; [|by vm_compute in Hloc].
    simpl in Hloc. exists (sanitize l). split.
    + rewrite Hd by (by vm_compute). by rewrite Hl.
    + unfold sanitize, slice0. destruct (trim l); [done | discriminate].
Qed.

(** ** Values that are not strings *)

Section Coerced.

Variable Number_toString : number -> list N.
Variable World : Type.
Variable emails_send : Email -> World -> bool * World.

(** X15. The handler answers with status 429 exactly when the server is
    configured and the rate limiter rejects the request. *)
Theorem POST_429_iff env req now stampText stampHtml (σ : Server World) :
  (exists r, (POST Number_toString emails_send env req now stampText stampHtml σ).1 = Normal r
             /\ status r = 429)
  <-> configured env = true
      /\ (checkRateLimit (clientId req) now (rateLimitMap σ)).1 = false.
Proof.
  unfold POST. destruct (configured env).
  2: { simpl. split; [by intros (r & [= <-] & ?) | by intros [? _]]. }
  simpl negb. cbv iota.
  destruct (checkRateLimit (clientId req) now (rateLimitMap σ)) as [allowed table].
  destruct allowed; simpl negb; cbv iota.
  2: { simpl. split; [done | eauto]. }
  split; [|by intros [_ ?]]. intros (r & Hr & Hs). exfalso.
  destruct (body req) as [data|]; [|by injection Hr as <-].
  destruct (validate Number_toString data) as [errors|e]; [|done].
  destruct errors; [|by injection Hr as <-]. simpl negb in Hr. cbv iota in Hr.
  match type of Hr with context [deliver ?s ?e ?d ?a ?b ?x] =>
    pose proof (deliver_effects _ s e d a b x) as (_ & _ & Hd & _);
    destruct (deliver s e d a b x) end.
  simpl in *. injection Hr as <-. lia.
Qed.

(** X16. Validation coerces, the sanitizing loop does not: an email address
    given as a one-element array passes the email rule, but the sanitized
    data hold no email, and the confirmation has no recipient. *)
Theorem email_array_passes_then_vanishes (env : Env) (fields : list (list N * json))
    (e : list N) :
  NoDup fields.*1 ->
  assoc (js "email") fields = Some (JArr [JStr e]) ->
  validateEmail e = true ->
  rule_email Number_toString (JObj fields) = Normal []
  /\ sanitizeAll (JObj fields) !! js "email" = None
  /\ to (confirmation env (sanitizeAll (JObj fields))) = None.
Proof.
  intros Hnd He Hv.
  assert (Hs : sanitizeAll (JObj fields) !! js "email" = None).
  { by rewrite sanitizeAll_fields, He. }
  split; [|by split]. unfold rule_email. simpl. rewrite He. simpl. by rewrite Hv.
Qed.

End Coerced.

(** ** Further properties of the composers *)

Lemma within_app_l (x l m : list N) : within x l -> within x (l ++ m).
Proof.
  intros (b & a & ->). exists b, (a ++ m). by rewrite <- !app_assoc.
Qed.

Lemma within_app_r (x l m : list N) : within x m -> within x (l ++ m).
Proof.
  intros (b & a & ->). exists (l ++ b), a. by rewrite <- !app_assoc.
Qed.

Lemma within_if (x l m : list N) (c : bool) :
  within x l -> within x (if c then l ++ m else l).
Proof. intros H. destruct c; [by apply within_app_l | done]. Qed.

Lemma within_let (x v : list N) (f : list N -> list N) :
  within x v -> (forall h, within x h -> within x (f h)) -> within x (let h := v in f h).
Proof. intros Hv Hf. by apply Hf. Qed.

Lemma within_let_any (x v : list N) (f : list N -> list N) :
  (forall h, within x (f h)) -> within x (let h := v in f h).
Proof. intros Hf. apply Hf. Qed.

Lemma within_between (a s e s' b rest : list N) :
  within (s ++ e ++ s') ((a ++ s) ++ e ++ (s' ++ b) ++ rest).
Proof. exists a, (b ++ rest). by rewrite <- !app_assoc. Qed.

(** A piece found in the markup so far is still there after the steps that
    follow, which only append. *)
Ltac carry :=
  first
    [ assumption
    | lazymatch goal with
      | |- within ?x (let h := ?v in @?f h) =>
          first [ apply (within_let x v f); [carry | intros ? ?; carry]
                | cbv zeta; carry ]
      | |- within _ (if ?c then _ else _) => destruct c; carry
      | |- within _ (_ ++ _) => apply within_app_l; carry
      end ].

(** X17. The markup message carries field values as they are, without any
    escaping: the email address stands verbatim between [<strong>] and
    [</strong>], and notes, when present, stand verbatim before [</p>] but
    for their line feeds, each replaced by [<br>]. *)
Theorem formatLeadHtml_verbatim (data : gmap (list N) (list N)) (stamp : list N) :
  within (js "<strong>" ++ show (data !! js "email") ++ js "</strong>")
    (formatLeadHtml data stamp)
  /\ (present (data !! js "notes") = true ->
      within (replaceAll (fun c => (c =? 10)%N) (js "<br>") (show (data !! js "notes"))
                ++ js "</p>")
        (formatLeadHtml data stamp)).
Proof.
  cbv beta delta [formatLeadHtml]. split.
  - lazymatch goal with
    | |- within ?x (let h := ?v in @?f h) => apply (within_let x v f)
    end.
    + lazymatch goal with
      | |- within _ (tpl ?a ++ _ ++ tpl ?b ++ ?rest) =>
          replace (tpl a) with (take (length (tpl a) - 8) (tpl a) ++ js "<strong>")
            by (by vm_compute);
          replace (tpl b) with (js "</strong>" ++ drop 9 (tpl b)) by (by vm_compute)
      end.
      apply within_between.
    + intros h Hh. carry.
  - intros Hn.
    repeat lazymatch goal with
           | |- within ?x (let h := ?v in @?f h) =>
               lazymatch v with
               | context [js "notes"] => fail
               | _ => apply (within_let_any x v f); intros ?
               end
           end.
    rewrite Hn. cbv zeta. apply within_app_l, within_app_r.
    lazymatch goal with
    | |- within _ (tpl ?a ++ ?mid ++ tpl ?b) =>
        replace (tpl b) with (js "</p>" ++ drop 4 (tpl b)) by (by vm_compute);
        exists (tpl a), (drop 4 (tpl b))
    end.
    by rewrite <- !app_assoc.
Qed.

(** ** The value a send resolves to *)

Section SendResult.

Variable Number_toString : number -> list N.
Variable World : Type.
Variable service : Email -> World -> SendOutcome * World.

(** X18. The handler does not look at the value an awaited send resolves
    to: on a validated request it answers with status 200 and
    [{success: true}] as soon as neither call rejects, also when a call
    resolves to a value that reports an error. *)
Theorem POST_ignores_send_result env req now stampText stampHtml (σ : Server World)
    (data : json) :
  configured env = true ->
  (checkRateLimit (clientId req) now (rateLimitMap σ)).1 = true ->
  body req = Some data ->
  validate Number_toString data = Normal [] ->
  let n := notification env (sanitizeAll data) stampText stampHtml in
  let c := confirmation env (sanitizeAll data) in
  let o1 := service n (world σ) in
  let o2 := service c o1.2 in
  o1.1 <> Rejected ->
  o2.1 <> Rejected ->
  (POST Number_toString (awaited service) env req now stampText stampHtml σ).1
  = Normal {| status := 200; contentType := js "application/json"; payload := SuccessBody |}.
Proof.
  intros Hc Ha Hb Hv n c o1 o2 Hn1 Hn2.
  destruct (POST_delivery_cases Number_toString World (awaited service)
              env req now stampText stampHtml σ data Hc Ha Hb Hv) as [Hout _].
  fold n c in Hout.
  assert (H1 : awaited service n (world σ) = (resolves o1.1, o1.2)).
  { unfold awaited. fold o1. by destruct o1. }
  rewrite H1 in Hout. simpl fst in Hout. simpl snd in Hout.
  assert (H2 : awaited service c o1.2 = (resolves o2.1, o2.2)).
  { unfold awaited. fold o2. by destruct o2. }
  rewrite H2 in Hout. simpl fst in Hout. simpl snd in Hout.
  rewrite Hout. destruct (o1.1), (o2.1); done.
Qed.

End SendResult.

(** ** The further theorems at sample inputs *)

(** The sample client, its window used up, is turned away. *)
Lemma POST_rate_limited_sample :
  POST Sample.printNumber Sample.scripted Sample.env
    (Sample.request (Some (submission Sample.lead))) 2000 Sample.stamp Sample.stamp
    SampleMore.busy
  = (Normal {| status := 429;
               contentType := js "application/json";
               payload := ErrorBody (js "Zbyt wiele zgłoszeń. Proszę spróbować za chwilę.") |},
     SampleMore.busy).
Proof.
  apply (POST_rate_limited Sample.printNumber (list bool) Sample.scripted).
  - reflexivity.
  - vm_compute. reflexivity.
Defined.

(** The body [[]] on the sample server. *)
Lemma POST_non_object_body_sample :
  POST Sample.printNumber Sample.scripted Sample.env (Sample.request (Some (JArr []))) 1000
    Sample.stamp Sample.stamp (Sample.server [])
  = (Normal {| status := 400;
               contentType := js "application/json";
               payload := ErrorBody everyMessage |},
     afterRateCheck (Sample.request (Some (JArr []))) 1000 (Sample.server [])).
Proof.
  apply (POST_non_object_body Sample.printNumber (list bool) Sample.scripted Sample.env
           (Sample.request (Some (JArr []))) 1000 Sample.stamp Sample.stamp (Sample.server [])
           (JArr [])).
  - reflexivity.
  - vm_compute. reflexivity.
  - reflexivity.
  - reflexivity.
Defined.

(** The sample submission with two wrong fields gets a response. *)
Lemma POST_string_fields_return_sample :
  exists r,
    (POST Sample.printNumber Sample.scripted Sample.env
       (Sample.request (Some (submission Sample.badLead))) 1000 Sample.stamp Sample.stamp
       (Sample.server [])).1 = Normal r.
Proof.
  apply (POST_string_fields_return Sample.printNumber (list bool) Sample.scripted Sample.env
           (Sample.request (Some (submission Sample.badLead))) 1000 Sample.stamp Sample.stamp
           (Sample.server []) Sample.badLead).
  reflexivity.
Defined.

(** The sanitized phone number of the wrapped sample. *)
Lemma sanitizeAll_object_sample :
  sanitizeAll (JObj SampleMore.wrapped) !! js "phone"
  = match assoc (js "phone") SampleMore.wrapped with
    | Some (JStr s) =>
        if bool_decide (js "phone" = js "__proto__") then None else Some (sanitize s)
    | _ => None
    end.
Proof.
  apply (sanitizeAll_object SampleMore.wrapped (js "phone")).
  apply (bool_decide_eq_true_1 _). vm_compute. reflexivity.
Defined.

(** The sample address. *)
Lemma validateEmail_accepts_only_sample :
  countOf 64 (js "jan@example.com") = 1%nat
  /\ Forall (fun c => isWhiteSpace c = false) (js "jan@example.com")
  /\ (5 <= length (js "jan@example.com"))%nat.
Proof. apply validateEmail_accepts_only. vm_compute. reflexivity. Defined.

(** The sample submission. *)
Lemma sanitize_keeps_valid_sample :
  let d := sanitizeAll (submission Sample.lead) in
  (d !! js "buildingType" = Some (js "nowy") \/ d !! js "buildingType" = Some (js "istniejący"))
  /\ d !! js "buildingType" = assoc (js "buildingType") Sample.lead
  /\ (exists e, assoc (js "email") Sample.lead = Some e /\ d !! js "email" = Some e
                /\ validateEmail e = true /\ to (confirmation Sample.env d) = Some e)
  /\ (exists p, d !! js "phone" = Some p /\ validatePhone p = true)
  /\ (exists l, d !! js "location" = Some l /\ l <> []).
Proof.
  apply (sanitize_keeps_valid Sample.env Sample.lead).
  - apply (bool_decide_eq_true_1 _). vm_compute. reflexivity.
  - vm_compute. reflexivity.
  - intros k v Hin.
    assert (HF : Forall (fun kv => (length kv.2 <= 2000)%nat) Sample.lead).
    { apply (bool_decide_eq_true_1 _). vm_compute. reflexivity. }
    rewrite Forall_forall in HF. exact (HF (k, v) Hin).
Defined.

(** The wrapped sample. *)
Lemma email_array_passes_then_vanishes_sample :
  rule_email Sample.printNumber (JObj SampleMore.wrapped) = Normal []
  /\ sanitizeAll (JObj SampleMore.wrapped) !! js "email" = None
  /\ to (confirmation Sample.env (sanitizeAll (JObj SampleMore.wrapped))) = None.
Proof.
  apply (email_array_passes_then_vanishes Sample.printNumber Sample.env SampleMore.wrapped
           (js "jan@example.com")).
  - apply (bool_decide_eq_true_1 _). vm_compute. reflexivity.
  - reflexivity.
  - vm_compute. reflexivity.
Defined.

(** The sample submission when both sends resolve to an error. *)
Lemma POST_ignores_send_result_sample :
  (POST Sample.printNumber (awaited SampleSends.scripted) Sample.env
     (Sample.request (Some (submission Sample.lead))) 1000 Sample.stamp Sample.stamp
     (SampleSends.server [Refused; Refused])).1
  = Normal {| status := 200; contentType := js "application/json"; payload := SuccessBody |}.
Proof.
  apply (POST_ignores_send_result Sample.printNumber (list SendOutcome) SampleSends.scripted
           Sample.env (Sample.request (Some (submission Sample.lead))) 1000
           Sample.stamp Sample.stamp (SampleSends.server [Refused; Refused])
           (submission Sample.lead)).
  - reflexivity.
  - vm_compute. reflexivity.
  - reflexivity.
  - vm_compute. reflexivity.
  - vm_compute. discriminate.
  - vm_compute. discriminate.
Defined.
